(** * giveaway-bot: the entry store, the submission handler and the CSV export

    A shallow embedding of [bot.py].  Python strings are sequences of Unicode
    code points; the backing file [entries.json] is the only durable state and
    is threaded explicitly through every operation. *)

From Stdlib Require Import Bool Ascii String DecimalString DecimalZ.
From Stdlib Require Import List NArith ZArith Lia.
Import ListNotations.
Local Open Scope N_scope.

(** ** Python strings *)

Module Py.

(** A [str] is a sequence of code points. *)
Abbreviation char := N (only parsing).
Abbreviation str := (list N) (only parsing).

(** [a == b] on two strings. *)
Fixpoint str_eqb (a b : str) : bool :=
  match a, b with
  | [], [] => true
  | x :: a', y :: b' => (x =? y) && str_eqb a' b'
  | _, _ => false
  end.

(** A source literal made of characters below U+0100. *)
Definition lit (s : string) : str := map N_of_ascii (list_ascii_of_string s).

(** [str.isspace] on one code point: the table of CPython's
    [_PyUnicode_IsWhitespace]. *)
Definition isspace (c : char) : bool :=
  ((0x09 <=? c) && (c <=? 0x0D))
  || ((0x1C <=? c) && (c <=? 0x20))
  || (c =? 0x85) || (c =? 0xA0) || (c =? 0x1680)
  || ((0x2000 <=? c) && (c <=? 0x200A))
  || (c =? 0x2028) || (c =? 0x2029) || (c =? 0x202F)
  || (c =? 0x205F) || (c =? 0x3000).

Fixpoint lstrip (s : str) : str :=
  match s with
  | c :: t => if isspace c then lstrip t else s
  | [] => []
  end.

Definition rstrip (s : str) : str := rev (lstrip (rev s)).

(** [s.strip()] *)
Definition strip (s : str) : str := rstrip (lstrip s).

(** [s.replace(old, new)] for a one-character [old]. *)
Definition replace (old : char) (new : str) (s : str) : str :=
  flat_map (fun c => if c =? old then new else [c]) s.

(** [sep.join(l)] *)
Fixpoint join (sep : str) (l : list str) : str :=
  match l with
  | [] => []
  | [x] => x
  | x :: t => x ++ sep ++ join sep t
  end.

(** [s.split(sep)] for a one-character [sep]: the pieces between
    occurrences of [sep]. *)
Fixpoint split (sep : char) (s : str) : list str :=
  match s with
  | [] => [[]]
  | c :: t =>
      if c =? sep then [] :: split sep t
      else match split sep t with
           | p :: ps => (c :: p) :: ps
           | [] => [[c]]
           end
  end.

(** [str(n)] for an [int]. *)
Definition str_of_int (z : Z) : str :=
  lit (NilEmpty.string_of_int (Z.to_int z)).

(** [s.encode("utf-8")]: [None] stands for [UnicodeEncodeError], raised on
    surrogate code points. *)
Definition utf8_char (c : char) : option (list N) :=
  if c <? 0x80 then Some [c]
  else if c <? 0x800 then
    Some [N.lor 0xC0 (N.shiftr c 6); N.lor 0x80 (N.land c 0x3F)]
  else if (0xD800 <=? c) && (c <=? 0xDFFF) then None
  else if c <? 0x10000 then
    Some [N.lor 0xE0 (N.shiftr c 12);
          N.lor 0x80 (N.land (N.shiftr c 6) 0x3F);
          N.lor 0x80 (N.land c 0x3F)]
  else
    Some [N.lor 0xF0 (N.shiftr c 18);
          N.lor 0x80 (N.land (N.shiftr c 12) 0x3F);
          N.lor 0x80 (N.land (N.shiftr c 6) 0x3F);
          N.lor 0x80 (N.land c 0x3F)].

Fixpoint encode_utf8 (s : str) : option (list N) :=
  match s with
  | [] => Some []
  | c :: t =>
      match utf8_char c, encode_utf8 t with
      | Some b, Some bs => Some (b ++ bs)
      | _, _ => None
      end
  end.

End Py.

Import Py.

(** ** Data model *)

(** The dict built by [on_submit]: four string-valued keys.  The record
    keeps the values of a dict read from the file, not the order in which
    the file lists its keys; what is said of a store after a write is said
    of the entries read back, which that order does not affect. *)
Record Entry := mkEntry {
  discord_user_id : str;
  discord_tag : str;
  uid : str;
  timestamp : str
}.

Definition k_discord_user_id : str := lit "discord_user_id".
Definition k_discord_tag : str := lit "discord_tag".
Definition k_uid : str := lit "uid".
Definition k_timestamp : str := lit "timestamp".

(** The items of an entry's dict, in the insertion order of the dict
    display of [on_submit]. *)
Definition items (e : Entry) : list (str * str) :=
  [ (k_discord_user_id, discord_user_id e);
    (k_discord_tag, discord_tag e);
    (k_uid, uid e);
    (k_timestamp, timestamp e) ].

(** ** The [json] module, on sequences of entries *)

Module Json.

(** *** Encoder: [json.dump] with [ensure_ascii] left at its default *)

Definition hexdigit (n : N) : char := if n <? 10 then 48 + n else 87 + n.

(** ['\\u{0:04x}'.format(n)] *)
Definition u_escape (n : N) : str :=
  [92; 117; hexdigit (n / 4096 mod 16); hexdigit (n / 256 mod 16);
   hexdigit (n / 16 mod 16); hexdigit (n mod 16)].

(** The replacement of one character by [py_encode_basestring_ascii]:
    the short escapes, printable ASCII unchanged, everything else a
    [\uXXXX] escape, a surrogate pair above the basic plane. *)
Definition encode_char (c : char) : str :=
  if c =? 34 then [92; 34]
  else if c =? 92 then [92; 92]
  else if c =? 10 then [92; 110]
  else if c =? 13 then [92; 114]
  else if c =? 9 then [92; 116]
  else if c =? 8 then [92; 98]
  else if c =? 12 then [92; 102]
  else if (32 <=? c) && (c <=? 126) then [c]
  else if c <? 0x10000 then u_escape c
  else
    let n := c - 0x10000 in
    u_escape (N.lor 0xd800 (N.land (N.shiftr n 10) 0x3ff))
    ++ u_escape (N.lor 0xdc00 (N.land n 0x3ff)).

Definition encode_basestring_ascii (s : str) : str :=
  34 :: flat_map encode_char s ++ [34].

(** ['\n' + ' ' * indent * level], absent without [indent]. *)
Definition newline_indent (indent : option nat) (level : nat) : str :=
  match indent with
  | Some n => 10 :: repeat 32 (n * level)%nat
  | None => []
  end.

Definition item_separator (indent : option nat) : str :=
  match indent with
  | Some _ => [44]
  | None => [44; 32]
  end.

Definition key_separator : str := [58; 32].

(** A list or a dict holding the already encoded [elems], opened at
    nesting depth [level]. *)
Definition encode_container (opening closing : char)
    (indent : option nat) (level : nat) (elems : list str) : str :=
  match elems with
  | [] => [opening; closing]
  | _ =>
      opening :: newline_indent indent (S level)
      ++ join (item_separator indent ++ newline_indent indent (S level)) elems
      ++ newline_indent indent level ++ [closing]
  end.

Definition encode_item (kv : str * str) : str :=
  encode_basestring_ascii (fst kv) ++ key_separator
  ++ encode_basestring_ascii (snd kv).

Definition encode_dict (indent : option nat) (level : nat)
    (d : list (str * str)) : str :=
  encode_container 123 125 indent level (map encode_item d).

(** An entry as an element of the top-level list. *)
Definition encode_entry (indent : option nat) (e : Entry) : str :=
  encode_dict indent 1 (items e).

(** [json.dump(entries, f, indent=indent)]: the text written. *)
Definition dump (indent : option nat) (entries : list Entry) : str :=
  encode_container 91 93 indent 0 (map (encode_entry indent) entries).

(** *** Decoder: [json.load] *)

Definition is_ws (c : char) : bool :=
  (c =? 32) || (c =? 9) || (c =? 10) || (c =? 13).

Fixpoint skip_ws (s : str) : str :=
  match s with
  | c :: t => if is_ws c then skip_ws t else s
  | [] => []
  end.

Definition hexval (c : char) : option N :=
  if (48 <=? c) && (c <=? 57) then Some (c - 48)
  else if (97 <=? c) && (c <=? 102) then Some (c - 87)
  else if (65 <=? c) && (c <=? 70) then Some (c - 55)
  else None.

Definition decode_uXXXX (a b c d : char) : option N :=
  match hexval a, hexval b, hexval c, hexval d with
  | Some x, Some y, Some z, Some w => Some (4096 * x + 256 * y + 16 * z + w)
  | _, _, _, _ => None
  end.

(** The table [BACKSLASH] of the decoder. *)
Definition backslash (c : char) : option char :=
  if c =? 34 then Some 34
  else if c =? 92 then Some 92
  else if c =? 47 then Some 47
  else if c =? 98 then Some 8
  else if c =? 102 then Some 12
  else if c =? 110 then Some 10
  else if c =? 114 then Some 13
  else if c =? 116 then Some 9
  else None.

Definition is_high_surrogate (u : N) : bool := (0xd800 <=? u) && (u <=? 0xdbff).
Definition is_low_surrogate (u : N) : bool := (0xdc00 <=? u) && (u <=? 0xdfff).

Definition push (c : char) (r : option (str * str)) : option (str * str) :=
  match r with
  | Some (x, rest) => Some (c :: x, rest)
  | None => None
  end.

(** [scanstring] in strict mode, entered just after the opening quote:
    the decoded string and the text after the closing quote.  [None] is
    [JSONDecodeError]. *)
Fixpoint scanstring (s : str) : option (str * str) :=
  match s with
  | [] => None
  | c :: t =>
      if c =? 34 then Some ([], t)
      else if c =? 92 then
        match t with
        | [] => None
        | e :: t1 =>
            if e =? 117 then
              match t1 with
              | h1 :: h2 :: h3 :: h4 :: t2 =>
                  match decode_uXXXX h1 h2 h3 h4 with
                  | None => None
                  | Some uni =>
                      if is_high_surrogate uni then
                        match t2 with
                        | b :: u :: l1 :: l2 :: l3 :: l4 :: t3 =>
                            if (b =? 92) && (u =? 117) then
                              match decode_uXXXX l1 l2 l3 l4 with
                              | None => None
                              | Some uni2 =>
                                  if is_low_surrogate uni2 then
                                    push (0x10000
                                          + N.lor (N.shiftl (uni - 0xd800) 10)
                                                  (uni2 - 0xdc00))
                                         (scanstring t3)
                                  else push uni (scanstring t2)
                              end
                            else push uni (scanstring t2)
                        | _ => push uni (scanstring t2)
                        end
                      else push uni (scanstring t2)
                  end
              | _ => None
              end
            else
              match backslash e with
              | Some c' => push c' (scanstring t1)
              | None => None
              end
        end
      else if c <? 32 then None
      else push c (scanstring t)
  end.

(** A JSON string at the head of [s]. *)
Definition parse_string (s : str) : option (str * str) :=
  match s with
  | c :: t => if c =? 34 then scanstring t else None
  | [] => None
  end.

(** The loop of [JSONObject], entered just after the opening quote of a
    key.  Member values are strings. *)
Fixpoint members (fuel : nat) (s : str) : option (list (str * str) * str) :=
  match fuel with
  | O => None
  | S fuel' =>
      match scanstring s with
      | None => None
      | Some (key, s1) =>
          match skip_ws s1 with
          | c :: s2 =>
              if c =? 58 then
                match parse_string (skip_ws s2) with
                | None => None
                | Some (value, s3) =>
                    match skip_ws s3 with
                    | d :: s4 =>
                        if d =? 125 then Some ([(key, value)], s4)
                        else if d =? 44 then
                          match skip_ws s4 with
                          | q :: s5 =>
                              if q =? 34 then
                                match members fuel' s5 with
                                | Some (ms, rest) => Some ((key, value) :: ms, rest)
                                | None => None
                                end
                              else None
                          | [] => None
                          end
                        else None
                    | [] => None
                    end
                end
              else None
          | [] => None
          end
      end
  end.

(** [JSONObject], entered just after the opening brace. *)
Definition JSONObject (fuel : nat) (s : str) : option (list (str * str) * str) :=
  match skip_ws s with
  | c :: t =>
      if c =? 125 then Some ([], t)
      else if c =? 34 then members fuel t
      else None
  | [] => None
  end.

(** [d[k]] on the dict built from the pairs [ms]: the last pair wins. *)
Definition dict_get (k : str) (ms : list (str * str)) : option str :=
  fold_left (fun acc kv => if str_eqb (fst kv) k then Some (snd kv) else acc)
            ms None.

Definition is_entry_key (k : str) : bool :=
  str_eqb k k_discord_user_id || str_eqb k k_discord_tag
  || str_eqb k k_uid || str_eqb k k_timestamp.

(** The entry a decoded object stands for: exactly the four keys of the
    data model.  Objects of another shape are outside the data model. *)
Definition entry_of_dict (ms : list (str * str)) : option Entry :=
  if forallb (fun kv => is_entry_key (fst kv)) ms then
    match dict_get k_discord_user_id ms, dict_get k_discord_tag ms,
          dict_get k_uid ms, dict_get k_timestamp ms with
    | Some i, Some t, Some u, Some ts => Some (mkEntry i t u ts)
    | _, _, _, _ => None
    end
  else None.

(** A value of the array: an object that is an entry. *)
Definition parse_entry (fuel : nat) (s : str) : option (Entry * str) :=
  match s with
  | c :: t =>
      if c =? 123 then
        match JSONObject fuel t with
        | Some (ms, rest) =>
            match entry_of_dict ms with
            | Some e => Some (e, rest)
            | None => None
            end
        | None => None
        end
      else None
  | [] => None
  end.

(** The loop of [JSONArray], entered at the first character of a value. *)
Fixpoint elements (fuel : nat) (s : str) : option (list Entry * str) :=
  match fuel with
  | O => None
  | S fuel' =>
      match parse_entry fuel s with
      | None => None
      | Some (e, s1) =>
          match skip_ws s1 with
          | c :: s2 =>
              if c =? 93 then Some ([e], s2)
              else if c =? 44 then
                match elements fuel' (skip_ws s2) with
                | Some (es, rest) => Some (e :: es, rest)
                | None => None
                end
              else None
          | [] => None
          end
      end
  end.

(** [JSONArray], entered just after the opening bracket. *)
Definition JSONArray (fuel : nat) (s : str) : option (list Entry * str) :=
  match skip_ws s with
  | c :: t => if c =? 93 then Some ([], t) else elements fuel (c :: t)
  | [] => None
  end.

(** [json.load(f)] on the text of the file: surrounding whitespace is
    skipped and nothing may follow the value.  [None] stands for
    [JSONDecodeError], and for a value that is not a sequence of entries.
    Every loop iteration consumes a character, so the length of the text is
    fuel enough. *)
Definition load (text : str) : option (list Entry) :=
  match skip_ws text with
  | c :: t =>
      if c =? 91 then
        match JSONArray (length text) t with
        | Some (es, rest) =>
            match skip_ws rest with
            | [] => Some es
            | _ => None
            end
        | None => None
        end
      else None
  | [] => None
  end.

End Json.

(** ** Entry store *)

(** The file [ENTRIES_FILE]: its text, or [None] while it does not exist.
    It is read and written through the UTF-8 codec, so the text is what the
    program sees.  Reading and writing themselves do not fail here. *)
Definition File := option str.

Definition exists_ (fs : File) : bool :=
  match fs with
  | Some _ => true
  | None => false
  end.

(** [load_entries()]: the file after the call, and the value returned;
    [None] when [json.load] raises or the file holds no sequence of
    entries. *)
Definition load_entries (fs : File) : File * option (list Entry) :=
  let fs1 := if exists_ fs then fs else Some (Json.dump None []) in
  match fs1 with
  | Some text => (fs1, Json.load text)
  | None => (fs1, None)
  end.

(** [save_entries(entries)] *)
Definition save_entries (entries : list Entry) (fs : File) : File :=
  Some (Json.dump (Some 2%nat) entries).

(** ** Handlers *)

(** What a handler reads from the platform and the clock. *)
Record Interaction := mkInteraction {
  user_id : Z;              (* interaction.user.id *)
  user_str : str;           (* str(interaction.user) *)
  uid_value_raw : str;      (* self.uid.value *)
  utcnow_isoformat : str    (* datetime.utcnow().isoformat() *)
}.

(** A message sent back: its text, the [ephemeral] flag and the attached
    file (name and bytes). *)
Record Message := mkMessage {
  content : str;
  ephemeral : bool;
  file : option (str * list N)
}.

(** [StoreUnreadable]: the load gave no sequence of entries.  For a file
    that [json.load] rejects this is the error it raises; what the handlers
    do with a JSON value of another shape is outside the data model. *)
Inductive Exn := StoreUnreadable | UnicodeEncodeError | MissingPermissions.

Inductive Outcome :=
| Sent (m : Message)
| Raised (e : Exn).

Definition uid_already_used : Message :=
  mkMessage (0x274C :: lit " This UID has already been used to enter the giveaway.")
            true None.

Definition user_already_entered : Message :=
  mkMessage (0x274C :: lit " You have already entered the giveaway.") true None.

Definition entered : Message :=
  mkMessage (0x2705 :: lit " You have successfully entered the giveaway!")
            true None.

Definition no_entries_found : Message :=
  mkMessage (0x26A0 :: lit " No entries found.") false None.

(** The entry [on_submit] builds. *)
Definition new_entry (i : Interaction) : Entry :=
  {| discord_user_id := str_of_int (user_id i);
     discord_tag := user_str i;
     uid := strip (uid_value_raw i);
     timestamp := utcnow_isoformat i |}.

(** [UIDModal.on_submit] *)
Definition on_submit (i : Interaction) (fs : File) : File * Outcome :=
  let uid_value := strip (uid_value_raw i) in
  match load_entries fs with
  | (fs1, None) => (fs1, Raised StoreUnreadable)
  | (fs1, Some entries) =>
      if existsb (fun e => str_eqb (uid e) uid_value) entries then
        (fs1, Sent uid_already_used)
      else if existsb (fun e => str_eqb (discord_user_id e)
                                        (str_of_int (user_id i))) entries then
        (fs1, Sent user_already_entered)
      else
        let entry := new_entry i in
        let entries := entries ++ [entry] in
        (save_entries entries fs1, Sent entered)
  end.

(** Submissions handled one after the other: the file at the end and the
    outcomes in order. *)
Fixpoint run (subs : list Interaction) (fs : File) : File * list Outcome :=
  match subs with
  | [] => (fs, [])
  | i :: rest =>
      let (fs1, o) := on_submit i fs in
      let (fs2, os) := run rest fs1 in
      (fs2, o :: os)
  end.

Definition quote (s : str) : str := 34 :: s ++ [34].

(** One row of the export. *)
Definition row (e : Entry) : str :=
  let safe_uid := replace 34 [34; 34] (uid e) in
  join [44] [quote (discord_user_id e); quote (discord_tag e);
             quote safe_uid; quote (timestamp e)].

Definition header : str :=
  lit "discordUserId,discordTag,uid,timestamp" ++ [10].

Definition csv_content (entries : list Entry) : str :=
  header ++ join [10] (map row entries).

Definition exported (n : nat) (csv_bytes : list N) : Message :=
  mkMessage (0x1F4C1 :: lit " Exported **" ++ str_of_int (Z.of_nat n)
             ++ lit "** entries.")
            false (Some (lit "entries.csv", csv_bytes)).

(** The body of the [export_entries] command. *)
Definition export_entries (fs : File) : File * Outcome :=
  match load_entries fs with
  | (fs1, None) => (fs1, Raised StoreUnreadable)
  | (fs1, Some entries) =>
      match entries with
      | [] => (fs1, Sent no_entries_found)
      | _ =>
          match encode_utf8 (csv_content entries) with
          | Some csv_bytes => (fs1, Sent (exported (length entries) csv_bytes))
          | None => (fs1, Raised UnicodeEncodeError)
          end
      end
  end.

(** The command behind [has_permissions(administrator=True)]. *)
Definition export_entries_command (administrator : bool) (fs : File)
    : File * Outcome :=
  if administrator then export_entries fs
  else (fs, Raised MissingPermissions).

(** ** The export as the specification words it

    Every field is quoted and has its double quotes doubled. *)
Definition spec_field (s : str) : str := quote (replace 34 [34; 34] s).

Definition spec_row (e : Entry) : str :=
  join [44] [spec_field (discord_user_id e); spec_field (discord_tag e);
             spec_field (uid e); spec_field (timestamp e)].

Definition header_line : str := lit "discordUserId,discordTag,uid,timestamp".

Definition spec_csv_lines (entries : list Entry) : list str :=
  header_line :: map spec_row entries.

(** ** Text the codec gives back

    The escapes of a high surrogate and of a low surrogate that follows it
    are read back as one character, so a string comes back from the file as
    it went in when it holds no such pair.  Unicode text holds no surrogate
    at all. *)
Definition code_point (c : char) : bool := c <? 0x110000.

Fixpoint no_surrogate_pair (s : str) : bool :=
  match s with
  | a :: t =>
      match t with
      | b :: _ => negb (Json.is_high_surrogate a && Json.is_low_surrogate b)
      | [] => true
      end && no_surrogate_pair t
  | [] => true
  end.

(** A string JSON can represent. *)
Definition json_representable (s : str) : bool :=
  forallb code_point s && no_surrogate_pair s.

(** A Unicode scalar value: a code point that is not a surrogate. *)
Definition scalar (c : char) : bool :=
  (c <? 0xD800) || ((0xE000 <=? c) && (c <? 0x110000)).

(** What [scanstring] looks for after the escape of a high surrogate: the
    escape of a low surrogate (or a malformed one, which it rejects). *)
Definition low_escape_ahead (s : str) : bool :=
  match s with
  | b :: u :: l1 :: l2 :: l3 :: l4 :: _ =>
      (b =? 92) && (u =? 117)
      && match Json.decode_uXXXX l1 l2 l3 l4 with
         | Some uni2 => Json.is_low_surrogate uni2
         | None => true
         end
  | _ => false
  end.

Definition pair_representable (kv : str * str) : bool :=
  json_representable (fst kv) && json_representable (snd kv).

Definition entry_representable (e : Entry) : bool :=
  json_representable (discord_user_id e) && json_representable (discord_tag e)
  && json_representable (uid e) && json_representable (timestamp e).

(** The strings of a submission the handler stores as they come. *)
Definition interaction_representable (i : Interaction) : bool :=
  json_representable (user_str i) && json_representable (uid_value_raw i)
  && json_representable (utcnow_isoformat i).



Definition quote_free (s : str) : Prop := ~ In 34 s.

(** ** Reachable stores *)

(** The files the program produces: from a file that is absent or holds an
    empty sequence, by submissions handled one after the other. *)
Inductive reachable : File -> Prop :=
| reach_empty fs :
    snd (load_entries fs) = Some [] -> reachable fs
| reach_submit fs i :
    reachable fs -> interaction_representable i = true ->
    reachable (fst (on_submit i fs)).

Definition unique_user_ids (entries : list Entry) : Prop :=
  NoDup (map discord_user_id entries).

Definition unique_uids (entries : list Entry) : Prop :=
  NoDup (map uid entries).

(** ** Sample data *)

Definition alice : Interaction :=
  mkInteraction 1001 (lit "alice") (lit "  ABC123  ")
                (lit "2024-05-01T10:00:00.000123").

Definition bob : Interaction :=
  mkInteraction 1002 (lit "bob") (lit "XYZ789") (lit "2024-05-01T10:05:00").

(** A second try by [alice], with another UID. *)
Definition alice_again : Interaction :=
  mkInteraction 1001 (lit "alice") (lit "QQQ") (lit "2024-05-01T10:06:00").

(** [bob] typing the UID [alice] entered. *)
Definition bob_copies : Interaction :=
  mkInteraction 1002 (lit "bob") (lit "ABC123") (lit "2024-05-01T10:07:00").

(** A form left blank. *)
Definition carol_blank : Interaction :=
  mkInteraction 1003 (lit "carol") (lit "   ") (lit "2024-05-01T10:08:00").

(** A user whose display string holds a double quote (code point 34),
    between [the] and [one#0042]. *)
Definition quoted_tag : Interaction :=
  mkInteraction 1004 (lit "the" ++ [34] ++ lit "one#0042") (lit "AB12")
                (lit "2024-05-01T10:09:00").

(** ** Further notions *)

(** The submission [i] with another text typed in the form. *)
Definition with_uid_value (i : Interaction) (text : str) : Interaction :=
  mkInteraction (user_id i) (user_str i) text (utcnow_isoformat i).

(** The outcome that is the success message. *)
Definition is_entered (o : Outcome) : bool :=
  match o with
  | Sent m => str_eqb (content m) (content entered)
  | Raised _ => false
  end.

(** The entries of the submissions that were answered with the success
    message, in order. *)
Fixpoint accepted (subs : list Interaction) (outs : list Outcome)
    : list Entry :=
  match subs, outs with
  | i :: subs', o :: outs' =>
      if is_entered o then new_entry i :: accepted subs' outs'
      else accepted subs' outs'
  | _, _ => []
  end.

(** Printable ASCII and line feeds. *)
Definition ascii_text (s : str) : bool :=
  forallb (fun c => (c =? 10) || ((32 <=? c) && (c <=? 126))) s.

Definition is_surrogate (c : char) : bool := (0xD800 <=? c) && (c <=? 0xDFFF).

Definition entry_fields (e : Entry) : list str :=
  [discord_user_id e; discord_tag e; uid e; timestamp e].

(** The characters a JSON value can start with, for [json.load]: a list, an
    object, a string, a number, [true], [false], [null], [NaN],
    [Infinity]. *)
Definition json_start (c : char) : bool :=
  (c =? 91) || (c =? 123) || (c =? 34) || (c =? 45)
  || ((48 <=? c) && (c <=? 57))
  || (c =? 116) || (c =? 102) || (c =? 110) || (c =? 78) || (c =? 73).

(** Decimal digits after an optional minus sign. *)
Definition decimal_char (c : char) : bool :=
  (c =? 45) || ((48 <=? c) && (c <=? 57)).

(** * Properties *)

Import Json.

Ltac Zify.zify_post_hook ::= Z.to_euclidean_division_equations.

(** Decide the comparisons of a goal from the linear facts at hand. *)
Ltac ncases :=
  repeat match goal with
    | |- context [?a <=? ?b] => destruct (N.leb_spec a b); try lia
    | |- context [?a <? ?b] => destruct (N.ltb_spec a b); try lia
    | |- context [?a =? ?b] => destruct (N.eqb_spec a b); try lia
    end.

Ltac inv H := inversion H; subst; clear H.

(** ** Strings *)

Lemma str_eqb_eq (a b : str) : str_eqb a b = true <-> a = b.
Proof.
  revert b; induction a as [|x a IH]; intros [|y b]; simpl;
    try (split; [discriminate | discriminate]); try tauto.
  rewrite andb_true_iff, N.eqb_eq, IH.
  split; [intros [-> ->]; reflexivity | intros H; inv H; auto].
Qed.

Lemma str_eqb_refl (a : str) : str_eqb a a = true.
Proof. apply str_eqb_eq; reflexivity. Qed.

Lemma existsb_str_eqb {A} (f : A -> str) (k : str) (l : list A) :
  existsb (fun x => str_eqb (f x) k) l = true <-> In k (map f l).
Proof.
  rewrite existsb_exists, in_map_iff.
  split; intros (x & H1 & H2); exists x.
  - apply str_eqb_eq in H2; auto.
  - subst; split; auto using str_eqb_refl.
Qed.

Lemma existsb_str_eqb_false {A} (f : A -> str) (k : str) (l : list A) :
  existsb (fun x => str_eqb (f x) k) l = false <-> ~ In k (map f l).
Proof.
  rewrite <- existsb_str_eqb.
  destruct (existsb _ l); split; congruence.
Qed.

Lemma no_surrogate_pair_app (a b : str) :
  no_surrogate_pair (a ++ b) = true ->
  no_surrogate_pair a = true /\ no_surrogate_pair b = true.
Proof.
  induction a as [|x a IH]; cbn [app no_surrogate_pair]; [auto|].
  intros H. apply andb_true_iff in H as [H1 H2].
  destruct (IH H2) as [Ha Hb]. split; [|assumption].
  rewrite Ha, andb_true_r. destruct a; [reflexivity | exact H1].
Qed.

(** A piece of a representable string is representable. *)
Lemma json_representable_app (a b : str) :
  json_representable (a ++ b) = true ->
  json_representable a = true /\ json_representable b = true.
Proof.
  unfold json_representable. rewrite forallb_app, !andb_true_iff.
  intros [[Ha Hb] H]. apply no_surrogate_pair_app in H. tauto.
Qed.

(** Unicode text is representable. *)
Lemma scalar_representable (s : str) :
  forallb scalar s = true -> json_representable s = true.
Proof.
  unfold json_representable.
  induction s as [|c s IH]; cbn [forallb no_surrogate_pair]; [reflexivity|].
  intros H. apply andb_true_iff in H as [Hc Hs].
  apply IH in Hs. apply andb_true_iff in Hs as [H1 H2].
  rewrite H1, H2, !andb_true_r.
  assert (code_point c = true /\ is_high_surrogate c = false) as [-> Hh]
    by (unfold scalar in Hc; unfold code_point, is_high_surrogate;
        revert Hc; ncases; auto).
  destruct s; [reflexivity|]. rewrite Hh. reflexivity.
Qed.

Lemma lit_representable (s : string) : json_representable (lit s) = true.
Proof.
  apply scalar_representable. unfold lit.
  apply forallb_forall; intros c Hc.
  apply in_map_iff in Hc as (a & <- & _).
  pose proof (N_ascii_bounded a). unfold scalar. ncases.
Qed.

(** *** [strip] *)

Lemma lstrip_split (s : str) :
  exists ws, s = ws ++ lstrip s /\ forallb isspace ws = true.
Proof.
  induction s as [|c t (ws & E & W)]; simpl.
  - exists []; auto.
  - destruct (isspace c) eqn:Hc.
    + exists (c :: ws); simpl; rewrite Hc, W; split; [f_equal; exact E | reflexivity].
    + exists []; auto.
Qed.

Lemma lstrip_head (s : str) :
  match lstrip s with
  | c :: _ => isspace c = false
  | [] => True
  end.
Proof.
  induction s as [|c t IH]; simpl; auto.
  destruct (isspace c) eqn:Hc; auto.
Qed.

Lemma rstrip_split (s : str) :
  exists ws, s = rstrip s ++ ws /\ forallb isspace ws = true.
Proof.
  unfold rstrip.
  destruct (lstrip_split (rev s)) as (ws & E & W).
  exists (rev ws); split.
  - rewrite <- rev_app_distr, <- E, rev_involutive; reflexivity.
  - apply forallb_forall; intros c Hc. apply in_rev in Hc.
    eapply forallb_forall in W; eauto.
Qed.

(** Stripping on the right keeps the first character. *)
Lemma rstrip_head (s : str) :
  match s with c :: _ => isspace c = false | [] => True end ->
  match rstrip s with c :: _ => isspace c = false | [] => True end.
Proof.
  intros H. destruct (rstrip_split s) as (ws & E & _).
  destruct (rstrip s) as [|c t]; auto.
  rewrite E in H; exact H.
Qed.

Lemma json_representable_strip (s : str) :
  json_representable s = true -> json_representable (strip s) = true.
Proof.
  intros H. unfold strip.
  destruct (lstrip_split s) as (ws1 & E1 & _).
  destruct (rstrip_split (lstrip s)) as (ws2 & E2 & _).
  rewrite E1 in H. apply json_representable_app in H as [_ H].
  rewrite E2 in H. apply json_representable_app in H as [H _]. exact H.
Qed.

(** What [strip] returns: the text between a whitespace prefix and a
    whitespace suffix, itself starting and ending with no whitespace. *)
Lemma strip_spec (s : str) :
  exists ws1 ws2,
    s = ws1 ++ strip s ++ ws2
    /\ forallb isspace ws1 = true /\ forallb isspace ws2 = true
    /\ match strip s with c :: _ => isspace c = false | [] => True end
    /\ match rev (strip s) with c :: _ => isspace c = false | [] => True end.
Proof.
  unfold strip.
  destruct (lstrip_split s) as (ws1 & E1 & W1).
  destruct (rstrip_split (lstrip s)) as (ws2 & E2 & W2).
  exists ws1, ws2; repeat split; auto.
  - rewrite <- E2; exact E1.
  - apply rstrip_head, lstrip_head.
  - unfold rstrip; rewrite rev_involutive. apply lstrip_head.
Qed.

(** *** [str] of an [int] *)

Lemma lit_inj (a b : string) : lit a = lit b -> a = b.
Proof.
  unfold lit; intros H.
  rewrite <- (string_of_list_ascii_of_string a), <- (string_of_list_ascii_of_string b).
  f_equal.
  revert H; generalize (list_ascii_of_string a), (list_ascii_of_string b).
  induction l as [|x l IH]; intros [|y l']; simpl; try discriminate; auto.
  intros H; inv H. f_equal; auto.
  rewrite <- (ascii_N_embedding x), <- (ascii_N_embedding y); congruence.
Qed.

Lemma str_of_int_inj (a b : Z) : str_of_int a = str_of_int b -> a = b.
Proof.
  unfold str_of_int; intros H. apply lit_inj in H.
  apply DecimalZ.to_int_inj.
  assert (Some (Z.to_int a) = Some (Z.to_int b)) as E
    by (rewrite <- !NilEmpty.isi; congruence).
  congruence.
Qed.

(** ** The JSON codec *)

Lemma hexval_hexdigit d : d < 16 -> hexval (hexdigit d) = Some d.
Proof.
  intros H. unfold hexval, hexdigit.
  destruct (N.ltb_spec d 10); cbv iota; ncases; cbn [andb]; f_equal; lia.
Qed.

Lemma decode_u_escape n : n < 0x10000 ->
  decode_uXXXX (hexdigit (n / 4096 mod 16)) (hexdigit (n / 256 mod 16))
               (hexdigit (n / 16 mod 16)) (hexdigit (n mod 16)) = Some n.
Proof.
  intros H. unfold decode_uXXXX.
  rewrite !hexval_hexdigit by lia. f_equal. lia.
Qed.

Lemma lor_low a b k : b < 2 ^ k -> N.lor (a * 2 ^ k) b = a * 2 ^ k + b.
Proof.
  intros H.
  assert (N.land (a * 2 ^ k) b = 0) as E.
  { apply N.bits_inj_0; intros i.
    rewrite N.land_spec, <- N.shiftl_mul_pow2.
    destruct (N.lt_ge_cases i k).
    - rewrite N.shiftl_spec_low by assumption. reflexivity.
    - rewrite <- (N.mod_small b (2 ^ k)) by assumption.
      rewrite N.mod_pow2_bits_high by assumption. apply andb_false_r. }
  rewrite N.add_nocarry_lxor, N.lxor_lor by assumption. reflexivity.
Qed.

#[local] Arguments decode_uXXXX : simpl never.
#[local] Arguments is_high_surrogate : simpl never.
#[local] Arguments is_low_surrogate : simpl never.
#[local] Arguments push : simpl never.
#[local] Arguments hexdigit : simpl never.
#[local] Arguments N.add : simpl never.
#[local] Arguments N.mul : simpl never.
#[local] Arguments N.sub : simpl never.
#[local] Arguments N.div : simpl never.
#[local] Arguments N.modulo : simpl never.
#[local] Arguments N.lor : simpl never.
#[local] Arguments N.land : simpl never.
#[local] Arguments N.shiftl : simpl never.
#[local] Arguments N.shiftr : simpl never.

Lemma scanstring_plain c t :
  32 <= c -> c <> 34 -> c <> 92 -> scanstring (c :: t) = push c (scanstring t).
Proof. intros. cbn [scanstring]. ncases. reflexivity. Qed.

Lemma scanstring_u h1 h2 h3 h4 t uni :
  decode_uXXXX h1 h2 h3 h4 = Some uni -> is_high_surrogate uni = false ->
  scanstring (92 :: 117 :: h1 :: h2 :: h3 :: h4 :: t) = push uni (scanstring t).
Proof. intros H1 H2. simpl. rewrite H1, H2. reflexivity. Qed.

Lemma scanstring_pair h1 h2 h3 h4 l1 l2 l3 l4 t uni uni2 :
  decode_uXXXX h1 h2 h3 h4 = Some uni -> is_high_surrogate uni = true ->
  decode_uXXXX l1 l2 l3 l4 = Some uni2 -> is_low_surrogate uni2 = true ->
  scanstring (92 :: 117 :: h1 :: h2 :: h3 :: h4
              :: 92 :: 117 :: l1 :: l2 :: l3 :: l4 :: t)
  = push (0x10000 + N.lor (N.shiftl (uni - 0xd800) 10) (uni2 - 0xdc00))
         (scanstring t).
Proof.
  intros H1 H2 H3 H4. simpl. rewrite H1, H2. simpl. rewrite H3, H4.
  reflexivity.
Qed.

Lemma surrogates_join n : n < 0x100000 ->
  let hi := N.lor 0xd800 (N.land (N.shiftr n 10) 0x3ff) in
  let lo := N.lor 0xdc00 (N.land n 0x3ff) in
  hi = 0xd800 + n / 1024 /\ lo = 0xdc00 + n mod 1024
  /\ N.lor (N.shiftl (hi - 0xd800) 10) (lo - 0xdc00) = n.
Proof.
  intros H hi lo.
  assert (hi = 0xd800 + n / 1024) as Hhi.
  { unfold hi. change 0x3ff with (N.ones 10).
    rewrite N.land_ones, N.shiftr_div_pow2.
    change (2 ^ 10) with 1024.
    rewrite (N.mod_small (n / 1024)) by lia.
    change 0xd800 with (54 * 2 ^ 10). rewrite lor_low; [reflexivity|].
    change (2 ^ 10) with 1024. lia. }
  assert (lo = 0xdc00 + n mod 1024) as Hlo.
  { unfold lo. change 0x3ff with (N.ones 10).
    rewrite N.land_ones. change (2 ^ 10) with 1024.
    change 0xdc00 with (55 * 2 ^ 10). rewrite lor_low; [reflexivity|].
    change (2 ^ 10) with 1024. lia. }
  repeat split; auto.
  rewrite Hhi, Hlo, N.shiftl_mul_pow2, lor_low;
    change (2 ^ 10) with 1024; lia.
Qed.

Lemma scanstring_encode_char c rest :
  code_point c = true -> is_high_surrogate c = false ->
  scanstring (encode_char c ++ rest) = push c (scanstring rest).
Proof.
  intros Hc Hh. apply N.ltb_lt in Hc. unfold encode_char.
  destruct (N.eqb_spec c 34); [subst; reflexivity|].
  destruct (N.eqb_spec c 92); [subst; reflexivity|].
  destruct (N.eqb_spec c 10); [subst; reflexivity|].
  destruct (N.eqb_spec c 13); [subst; reflexivity|].
  destruct (N.eqb_spec c 9); [subst; reflexivity|].
  destruct (N.eqb_spec c 8); [subst; reflexivity|].
  destruct (N.eqb_spec c 12); [subst; reflexivity|].
  destruct (N.leb_spec 32 c); cbn [andb].
  - destruct (N.leb_spec c 126).
    + apply scanstring_plain; assumption.
    + destruct (N.ltb_spec c 0x10000).
      * apply scanstring_u; [apply decode_u_escape|]; assumption.
      * assert (c - 0x10000 < 0x100000) as Hn by lia.
        destruct (surrogates_join _ Hn) as (Hhi & Hlo & Hj).
        cbv zeta. unfold u_escape at 1 2. cbn [app].
        erewrite scanstring_pair;
          [ | apply decode_u_escape | | apply decode_u_escape | ].
        -- rewrite Hj. f_equal. lia.
        -- rewrite Hhi. lia.
        -- rewrite Hhi. unfold is_high_surrogate. ncases; auto.
        -- rewrite Hlo. lia.
        -- rewrite Hlo. unfold is_low_surrogate. ncases; auto.
  - destruct (N.ltb_spec c 0x10000); [|lia].
    apply scanstring_u; [apply decode_u_escape|]; assumption.
Qed.

(** *** A high surrogate on its own *)

Lemma scanstring_u_eq h1 h2 h3 h4 t2 :
  scanstring (92 :: 117 :: h1 :: h2 :: h3 :: h4 :: t2)
  = match decode_uXXXX h1 h2 h3 h4 with
    | None => None
    | Some uni =>
        if is_high_surrogate uni then
          match t2 with
          | b :: u :: l1 :: l2 :: l3 :: l4 :: t3 =>
              if (b =? 92) && (u =? 117) then
                match decode_uXXXX l1 l2 l3 l4 with
                | None => None
                | Some uni2 =>
                    if is_low_surrogate uni2 then
                      push (0x10000
                            + N.lor (N.shiftl (uni - 0xd800) 10) (uni2 - 0xdc00))
                           (scanstring t3)
                    else push uni (scanstring t2)
                end
              else push uni (scanstring t2)
          | _ => push uni (scanstring t2)
          end
        else push uni (scanstring t2)
    end.
Proof. reflexivity. Qed.

Lemma scanstring_high_alone h1 h2 h3 h4 t uni :
  decode_uXXXX h1 h2 h3 h4 = Some uni -> is_high_surrogate uni = true ->
  low_escape_ahead t = false ->
  scanstring (92 :: 117 :: h1 :: h2 :: h3 :: h4 :: t) = push uni (scanstring t).
Proof.
  intros H1 H2 H3. rewrite scanstring_u_eq, H1, H2.
  generalize (scanstring t); intros X.
  destruct t as [|b [|u [|l1 [|l2 [|l3 [|l4 t3]]]]]]; try reflexivity.
  unfold low_escape_ahead in H3.
  destruct ((b =? 92) && (u =? 117)); [|reflexivity].
  cbn [andb] in H3.
  destruct (decode_uXXXX l1 l2 l3 l4); [|discriminate].
  rewrite H3. reflexivity.
Qed.

Lemma low_escape_ahead_other b t : b <> 92 -> low_escape_ahead (b :: t) = false.
Proof.
  intros H. destruct t as [|u [|l1 [|l2 [|l3 [|l4 t]]]]]; try reflexivity.
  unfold low_escape_ahead. destruct (N.eqb_spec b 92); [contradiction | reflexivity].
Qed.

Lemma low_escape_ahead_short u t :
  u <> 117 -> low_escape_ahead (92 :: u :: t) = false.
Proof.
  intros H. destruct t as [|l1 [|l2 [|l3 [|l4 t]]]]; try reflexivity.
  unfold low_escape_ahead. destruct (N.eqb_spec u 117); [contradiction | reflexivity].
Qed.

Lemma low_escape_ahead_u h1 h2 h3 h4 t uni :
  decode_uXXXX h1 h2 h3 h4 = Some uni -> is_low_surrogate uni = false ->
  low_escape_ahead (92 :: 117 :: h1 :: h2 :: h3 :: h4 :: t) = false.
Proof. intros H1 H2. unfold low_escape_ahead. rewrite H1, H2. reflexivity. Qed.

Lemma low_escape_ahead_encode_char c rest :
  code_point c = true -> is_low_surrogate c = false ->
  low_escape_ahead (encode_char c ++ rest) = false.
Proof.
  intros Hc Hl. apply N.ltb_lt in Hc. unfold encode_char.
  destruct (N.eqb_spec c 34); [apply low_escape_ahead_short; discriminate|].
  destruct (N.eqb_spec c 92); [apply low_escape_ahead_short; discriminate|].
  destruct (N.eqb_spec c 10); [apply low_escape_ahead_short; discriminate|].
  destruct (N.eqb_spec c 13); [apply low_escape_ahead_short; discriminate|].
  destruct (N.eqb_spec c 9); [apply low_escape_ahead_short; discriminate|].
  destruct (N.eqb_spec c 8); [apply low_escape_ahead_short; discriminate|].
  destruct (N.eqb_spec c 12); [apply low_escape_ahead_short; discriminate|].
  destruct ((32 <=? c) && (c <=? 126)).
  - apply low_escape_ahead_other; assumption.
  - destruct (N.ltb_spec c 0x10000).
    + apply (low_escape_ahead_u _ _ _ _ _ c); [apply decode_u_escape|]; assumption.
    + assert (c - 0x10000 < 0x100000) as Hn by lia.
      destruct (surrogates_join _ Hn) as (Hhi & _ & _).
      cbv zeta. unfold u_escape at 1. cbn [app].
      eapply low_escape_ahead_u; [apply decode_u_escape|].
      * rewrite Hhi. lia.
      * rewrite Hhi. unfold is_low_surrogate. ncases; auto.
Qed.

Lemma low_escape_ahead_encode s rest :
  match s with b :: _ => is_low_surrogate b = false | [] => True end ->
  forallb code_point s = true ->
  low_escape_ahead (flat_map encode_char s ++ 34 :: rest) = false.
Proof.
  destruct s as [|c s]; cbn [flat_map forallb app]; intros Hl Hc.
  - apply low_escape_ahead_other; discriminate.
  - apply andb_true_iff in Hc as [Hc _].
    rewrite <- app_assoc. apply low_escape_ahead_encode_char; assumption.
Qed.

Lemma encode_char_high c :
  is_high_surrogate c = true -> encode_char c = u_escape c.
Proof.
  unfold is_high_surrogate. intros H. apply andb_true_iff in H as [H1 H2].
  apply N.leb_le in H1, H2. unfold encode_char. ncases; reflexivity.
Qed.

(** *** Strings *)

Lemma scanstring_encode s rest :
  json_representable s = true ->
  scanstring (flat_map encode_char s ++ 34 :: rest) = Some (s, rest).
Proof.
  unfold json_representable.
  induction s as [|c s IH]; intros H; [reflexivity|].
  cbn [forallb no_surrogate_pair flat_map] in H |- *.
  rewrite !andb_true_iff in H. destruct H as [[Hc Hs] [Hp Hn]].
  rewrite <- app_assoc.
  assert (scanstring (flat_map encode_char s ++ 34 :: rest) = Some (s, rest))
    as E by (apply IH; rewrite Hs, Hn; reflexivity).
  destruct (is_high_surrogate c) eqn:Hh.
  - rewrite (encode_char_high c Hh). unfold u_escape. cbn [app].
    rewrite (scanstring_high_alone _ _ _ _ _ c);
      [rewrite E; reflexivity | | exact Hh |].
    + apply decode_u_escape. unfold is_high_surrogate in Hh.
      apply andb_true_iff in Hh as [_ Hh]. apply N.leb_le in Hh. lia.
    + apply low_escape_ahead_encode; [|exact Hs].
      destruct s as [|b s]; [exact I|].
      cbn [andb] in Hp. destruct (is_low_surrogate b); [discriminate | reflexivity].
  - rewrite scanstring_encode_char, E by assumption. reflexivity.
Qed.

Lemma parse_string_encode s rest :
  json_representable s = true ->
  parse_string (encode_basestring_ascii s ++ rest) = Some (s, rest).
Proof.
  intros H. unfold encode_basestring_ascii, parse_string.
  cbn [app]. rewrite N.eqb_refl, <- app_assoc. apply scanstring_encode, H.
Qed.

Lemma skip_ws_app w r : forallb is_ws w = true -> skip_ws (w ++ r) = skip_ws r.
Proof.
  induction w as [|c w IH]; simpl; auto.
  intros H; apply andb_true_iff in H as [-> H]; auto.
Qed.

Lemma newline_indent_ws indent level :
  forallb is_ws (newline_indent indent level) = true.
Proof.
  destruct indent as [n|]; simpl; auto.
  induction (n * level)%nat; simpl; auto.
Qed.

Lemma skip_ws_string s r :
  skip_ws (encode_basestring_ascii s ++ r) = encode_basestring_ascii s ++ r.
Proof. reflexivity. Qed.

Lemma join_cons sep x y l : join sep (x :: y :: l) = x ++ sep ++ join sep (y :: l).
Proof. reflexivity. Qed.

Section Containers.

(** Between two elements: a comma, then the whitespace [w]; before the
    closing bracket: the whitespace [w']. *)
Variables w w' : str.
Hypothesis Hw : forallb is_ws w = true.
Hypothesis Hw' : forallb is_ws w' = true.

Lemma join_items kv d :
  join (44 :: w) (map encode_item (kv :: d))
  = 34 :: flat_map encode_char (fst kv) ++ 34 :: key_separator
    ++ encode_basestring_ascii (snd kv)
    ++ match d with
       | [] => []
       | _ => 44 :: w ++ join (44 :: w) (map encode_item d)
       end.
Proof.
  destruct d as [|kv' d]; cbn [map join]; unfold encode_item at 1;
    unfold encode_basestring_ascii at 1; cbn [app];
    rewrite <- ?app_assoc; cbn [app]; rewrite ?app_nil_r; reflexivity.
Qed.

Lemma members_encode rest d :
  forall fuel kv,
    (length d < fuel)%nat ->
    forallb pair_representable (kv :: d) = true ->
    members fuel
      (flat_map encode_char (fst kv) ++ 34 :: key_separator
       ++ encode_basestring_ascii (snd kv)
       ++ match d with
          | [] => []
          | _ => 44 :: w ++ join (44 :: w) (map encode_item d)
          end
       ++ w' ++ 125 :: rest)
    = Some (kv :: d, rest).
Proof.
  induction d as [|kv' d IH]; intros fuel [k v] Hf Hr;
    (destruct fuel as [|fuel]; [simpl in Hf; lia|]);
    cbn [forallb] in Hr; apply andb_true_iff in Hr as [Hkv Hr];
    apply andb_true_iff in Hkv as [Hk Hv]; cbn [fst snd] in Hk, Hv |- *;
    cbn [members]; rewrite scanstring_encode by assumption;
    unfold key_separator; cbn [app skip_ws is_ws N.eqb Pos.eqb orb];
    rewrite skip_ws_string, parse_string_encode by assumption.
  - cbn [app]. rewrite skip_ws_app by assumption. reflexivity.
  - cbn [app skip_ws is_ws N.eqb Pos.eqb orb].
    rewrite <- app_assoc, skip_ws_app by assumption.
    rewrite join_items. cbn [app skip_ws is_ws N.eqb Pos.eqb orb].
    pose proof (IH fuel kv' ltac:(simpl in Hf; lia) Hr) as E.
    unfold key_separator in E |- *.
    repeat (progress cbn [app] in E || rewrite <- app_assoc in E).
    repeat (progress cbn [app] || rewrite <- app_assoc).
    match goal with
    | |- match ?X with _ => _ end = _ =>
        replace X with (Some (kv' :: d, rest)) by (symmetry; exact E)
    end.
    reflexivity.
Qed.

Lemma JSONObject_encode rest kv d fuel v :
  (length d < fuel)%nat ->
  forallb pair_representable (kv :: d) = true ->
  forallb is_ws v = true ->
  JSONObject fuel (v ++ join (44 :: w) (map encode_item (kv :: d))
                   ++ w' ++ 125 :: rest)
  = Some (kv :: d, rest).
Proof.
  intros Hf Hr Hv. unfold JSONObject.
  rewrite skip_ws_app, join_items by assumption.
  cbn [app skip_ws is_ws N.eqb Pos.eqb orb].
  pose proof (members_encode rest d fuel kv Hf Hr) as E.
  repeat (progress cbn [app] in E || rewrite <- app_assoc in E).
  repeat (progress cbn [app] || rewrite <- app_assoc).
  exact E.
Qed.

End Containers.

Lemma encode_container_cons o c indent level x l :
  encode_container o c indent level (x :: l)
  = o :: newline_indent indent (S level)
    ++ join (item_separator indent ++ newline_indent indent (S level)) (x :: l)
    ++ newline_indent indent level ++ [c].
Proof. reflexivity. Qed.

Lemma separator_shape indent level :
  exists w, item_separator indent ++ newline_indent indent level = 44 :: w
            /\ forallb is_ws w = true.
Proof.
  destruct indent as [n|]; simpl.
  - exists (10 :: repeat 32 (n * level)%nat); split; auto.
    apply (newline_indent_ws (Some n) level).
  - exists [32]; auto.
Qed.

Lemma entry_of_dict_items e : entry_of_dict (items e) = Some e.
Proof. destruct e; reflexivity. Qed.

Lemma items_representable e :
  entry_representable e = true -> forallb pair_representable (items e) = true.
Proof.
  unfold entry_representable, items, pair_representable.
  rewrite !andb_true_iff. intros [[[H1 H2] H3] H4]. cbn [forallb fst snd].
  unfold k_discord_user_id, k_discord_tag, k_uid, k_timestamp.
  rewrite !lit_representable, H1, H2, H3, H4. reflexivity.
Qed.

Section Array.

Variable indent : option nat.

Abbreviation enc := (encode_entry indent).

Lemma parse_entry_encode e level rest fuel :
  (4 <= fuel)%nat ->
  entry_representable e = true ->
  parse_entry fuel (encode_dict indent level (items e) ++ rest) = Some (e, rest).
Proof.
  intros Hf He.
  destruct (separator_shape indent (S level)) as (w & Ew & Hw).
  assert (exists kv d, items e = kv :: d /\ length d = 3%nat)
    as (kv & d & Ei & Hd) by (eexists _, _; split; reflexivity).
  pose proof (items_representable e He) as Hr.
  pose proof (entry_of_dict_items e) as Hi.
  unfold encode_dict. rewrite Ei in *. cbn [map].
  rewrite encode_container_cons, Ew.
  change (encode_item kv :: map encode_item d) with (map encode_item (kv :: d)).
  unfold parse_entry. cbn [app]. change (123 =? 123) with true. cbv iota.
  repeat rewrite <- app_assoc. cbn [app].
  rewrite (JSONObject_encode w (newline_indent indent level)
             Hw (newline_indent_ws _ _) rest);
    [ rewrite Hi; reflexivity | lia | assumption | apply newline_indent_ws ].
Qed.

Lemma skip_ws_dict level d r :
  skip_ws (encode_dict indent level d ++ r) = encode_dict indent level d ++ r.
Proof.
  unfold encode_dict, encode_container.
  destruct (map encode_item d); reflexivity.
Qed.

Lemma elements_encode (w w' : str) rest es :
  forallb is_ws w = true -> forallb is_ws w' = true ->
  forall fuel e,
    (length es + 4 <= fuel)%nat ->
    forallb entry_representable (e :: es) = true ->
    elements fuel (join (44 :: w) (map enc (e :: es)) ++ w' ++ 93 :: rest)
    = Some (e :: es, rest).
Proof.
  intros Hw Hw'.
  induction es as [|e' es IH]; intros fuel e Hf Hr;
    (destruct fuel as [|fuel]; [lia|]);
    cbn [forallb] in Hr; apply andb_true_iff in Hr as [He Hr];
    cbn [elements map].
  - cbn [join]. unfold encode_entry at 1.
    rewrite parse_entry_encode by (assumption || lia).
    rewrite skip_ws_app by assumption.
    reflexivity.
  - rewrite join_cons. unfold encode_entry at 1. rewrite <- !app_assoc.
    rewrite parse_entry_encode by (assumption || lia).
    cbn [app skip_ws is_ws N.eqb Pos.eqb orb].
    rewrite <- ?app_assoc. rewrite skip_ws_app by assumption.
    assert (skip_ws (join (44 :: w) (enc e' :: map enc es) ++ w' ++ 93 :: rest)
            = join (44 :: w) (enc e' :: map enc es) ++ w' ++ 93 :: rest) as Es.
    { destruct (map enc es); cbn [join]; unfold encode_entry at 1;
        rewrite <- ?app_assoc; apply skip_ws_dict. }
    rewrite Es.
    change (enc e' :: map enc es) with (map enc (e' :: es)).
    rewrite (IH fuel e'); [reflexivity | simpl in Hf; lia | assumption].
Qed.

Lemma join_length_lower (sep : str) (n : nat) (l : list str) :
  Forall (fun x => (n <= length x)%nat) l ->
  (n * length l <= length (join sep l))%nat.
Proof.
  induction 1 as [|x l Hx Hl IH]; simpl; [lia|].
  destruct l as [|y l]; [simpl; lia|].
  rewrite !length_app. simpl length in *. lia.
Qed.

Lemma enc_length e : (5 <= length (enc e))%nat.
Proof.
  unfold encode_entry, encode_dict, encode_container. cbn [items map].
  simpl length. rewrite !length_app. simpl length. lia.
Qed.

Lemma load_dump es :
  forallb entry_representable es = true ->
  load (dump indent es) = Some es.
Proof.
  intros Hr. destruct es as [|e es]; [reflexivity|].
  destruct (separator_shape indent 1) as (w & Ew & Hw).
  unfold load, dump, encode_container.
  cbn [map]. rewrite Ew.
  cbn [skip_ws is_ws N.eqb Pos.eqb orb]. unfold JSONArray.
  rewrite skip_ws_app by apply newline_indent_ws.
  assert (forall r, skip_ws (join (44 :: w) (enc e :: map enc es) ++ r)
                    = join (44 :: w) (enc e :: map enc es) ++ r) as Es.
  { intros r. destruct (map enc es); cbn [join]; unfold encode_entry at 1;
      rewrite <- ?app_assoc; apply skip_ws_dict. }
  rewrite Es.
  assert (exists c t, join (44 :: w) (enc e :: map enc es)
                      ++ newline_indent indent 0 ++ [93] = c :: t /\ c <> 93)
    as (c & t & Ec & Hc).
  { destruct (map enc es); cbn [join];
      unfold encode_entry at 1, encode_dict, encode_container;
      cbn [items map app]; eexists _, _; (split; [reflexivity | discriminate]). }
  rewrite Ec. destruct (N.eqb_spec c 93) as [|_]; [contradiction|].
  rewrite <- Ec.
  rewrite (elements_encode w (newline_indent indent 0) [] es Hw
             (newline_indent_ws _ _) _ e); [reflexivity | | assumption].
  cbn [length]. rewrite !length_app.
  pose proof (join_length_lower (44 :: w) 5 (map enc (e :: es))) as Hl.
  rewrite length_map in Hl. cbn [map length] in Hl |- *.
  assert (Forall (fun x => (5 <= length x)%nat) (enc e :: map enc es)) as HF.
  { change (enc e :: map enc es) with (map enc (e :: es)).
    apply Forall_forall; intros x Hx.
    apply in_map_iff in Hx as (y & <- & _). apply enc_length. }
  specialize (Hl HF). lia.
Qed.

End Array.

(** The escapes of a surrogate pair are read back as one character: the
    one string shape that does not come back as it went in. *)
Lemma surrogate_pair_read_as_one :
  load (dump (Some 2%nat) [mkEntry (lit "1") (lit "a") [0xD800; 0xDC00] (lit "t")])
  = Some [mkEntry (lit "1") (lit "a") [0x10000] (lit "t")].
Proof. reflexivity. Qed.

(** *** Fuel *)

Lemma push_some c r x rest :
  push c r = Some (x, rest) -> exists x', x = c :: x' /\ r = Some (x', rest).
Proof.
  destruct r as [[x' rest']|]; [|discriminate].
  intros H; inv H. eauto.
Qed.

Lemma scanstring_eq c t :
  scanstring (c :: t) =
      if c =? 34 then Some ([], t)
      else if c =? 92 then
        match t with
        | [] => None
        | e :: t1 =>
            if e =? 117 then
              match t1 with
              | h1 :: h2 :: h3 :: h4 :: t2 =>
                  match decode_uXXXX h1 h2 h3 h4 with
                  | None => None
                  | Some uni =>
                      if is_high_surrogate uni then
                        match t2 with
                        | b :: u :: l1 :: l2 :: l3 :: l4 :: t3 =>
                            if (b =? 92) && (u =? 117) then
                              match decode_uXXXX l1 l2 l3 l4 with
                              | None => None
                              | Some uni2 =>
                                  if is_low_surrogate uni2 then
                                    push (0x10000
                                          + N.lor (N.shiftl (uni - 0xd800) 10)
                                                  (uni2 - 0xdc00))
                                         (scanstring t3)
                                  else push uni (scanstring t2)
                              end
                            else push uni (scanstring t2)
                        | _ => push uni (scanstring t2)
                        end
                      else push uni (scanstring t2)
                  end
              | _ => None
              end
            else
              match backslash e with
              | Some c' => push c' (scanstring t1)
              | None => None
              end
        end
      else if c <? 32 then None
      else push c (scanstring t).
Proof. reflexivity. Qed.

Lemma scanstring_shorter n :
  forall s x r, (length s <= n)%nat -> scanstring s = Some (x, r) ->
                (length r < length s)%nat.
Proof.
  induction n as [|n IH]; intros s x r Hn H.
  - destruct s; [discriminate | simpl in Hn; lia].
  - destruct s as [|c t]; [discriminate|].
    rewrite scanstring_eq in H.
    repeat match goal with
      | H : push _ (scanstring ?t) = Some _ |- _ =>
          apply push_some in H as (? & _ & H); apply IH in H; simpl in *; lia
      | H : Some _ = Some _ |- _ => inv H; simpl; lia
      | H : match ?l with [] => _ | _ :: _ => _ end = Some _ |- _ =>
          destruct l; try discriminate
      | H : (if ?b then _ else _) = Some _ |- _ => destruct b; try discriminate
      | H : match ?o with Some _ => _ | None => _ end = Some _ |- _ =>
          destruct o; try discriminate
      end.
Qed.

Lemma skip_ws_length s : (length (skip_ws s) <= length s)%nat.
Proof.
  induction s as [|c s IH]; simpl; [lia|].
  destruct (is_ws c); simpl; lia.
Qed.

Lemma skip_ws_cons s c t : skip_ws s = c :: t -> (length t < length s)%nat.
Proof.
  intros H. pose proof (skip_ws_length s) as L.
  rewrite H in L. simpl in L. lia.
Qed.

Lemma parse_string_shorter s x r :
  parse_string s = Some (x, r) -> (length r < length s)%nat.
Proof.
  destruct s as [|c t]; [discriminate|]. cbn [parse_string].
  destruct (c =? 34); [|discriminate].
  intros H. apply (scanstring_shorter (length t)) in H; simpl; lia.
Qed.

(** The facts a successful pass through the body of [members] leaves. *)
Ltac shorter :=
  repeat match goal with
    | H : scanstring ?s = Some (_, _) |- _ =>
        apply (scanstring_shorter (length s)) in H; [|lia]
    | H : parse_string _ = Some (_, _) |- _ => apply parse_string_shorter in H
    | H : skip_ws _ = _ :: _ |- _ => apply skip_ws_cons in H
    end.

Lemma members_fuel f :
  forall f' s, (length s <= f)%nat -> (length s <= f')%nat ->
               members f s = members f' s.
Proof.
  induction f as [|f IH]; intros f' s Hf Hf'.
  - destruct s; [|simpl in Hf; lia]. destruct f'; reflexivity.
  - destruct f' as [|f']; [destruct s; [reflexivity | simpl in Hf'; lia]|].
    cbn [members].
    destruct (scanstring s) as [[key s1]|] eqn:E1; [|reflexivity].
    destruct (skip_ws s1) as [|c s2] eqn:E2; [reflexivity|].
    destruct (c =? 58); [|reflexivity].
    destruct (parse_string (skip_ws s2)) as [[value s3]|] eqn:E3; [|reflexivity].
    destruct (skip_ws s3) as [|d s4] eqn:E4; [reflexivity|].
    destruct (d =? 125); [reflexivity|].
    destruct (d =? 44); [|reflexivity].
    destruct (skip_ws s4) as [|q s5] eqn:E5; [reflexivity|].
    destruct (q =? 34); [|reflexivity].
    pose proof (skip_ws_length s2).
    shorter. rewrite (IH f' s5) by lia. reflexivity.
Qed.

Lemma JSONObject_fuel f f' s :
  (length s <= f)%nat -> (length s <= f')%nat -> JSONObject f s = JSONObject f' s.
Proof.
  intros Hf Hf'. unfold JSONObject.
  destruct (skip_ws s) as [|c t] eqn:E; [reflexivity|].
  destruct (c =? 125); [reflexivity|]. destruct (c =? 34); [|reflexivity].
  shorter. apply members_fuel; lia.
Qed.

Lemma parse_entry_fuel f f' s :
  (length s <= f)%nat -> (length s <= f')%nat -> parse_entry f s = parse_entry f' s.
Proof.
  intros Hf Hf'. destruct s as [|c t]; [reflexivity|]. cbn [parse_entry].
  destruct (c =? 123); [|reflexivity].
  simpl in Hf, Hf'. rewrite (JSONObject_fuel f f' t) by lia. reflexivity.
Qed.

Lemma members_shorter f :
  forall s ms r, members f s = Some (ms, r) -> (length r < length s)%nat.
Proof.
  induction f as [|f IH]; intros s ms r H; [discriminate|].
  cbn [members] in H.
  destruct (scanstring s) as [[key s1]|] eqn:E1; [|discriminate].
  destruct (skip_ws s1) as [|c s2] eqn:E2; [discriminate|].
  destruct (c =? 58); [|discriminate].
  destruct (parse_string (skip_ws s2)) as [[value s3]|] eqn:E3; [|discriminate].
  destruct (skip_ws s3) as [|d s4] eqn:E4; [discriminate|].
  pose proof (skip_ws_length s2).
  destruct (d =? 125); [inv H; shorter; lia|].
  destruct (d =? 44); [|discriminate].
  destruct (skip_ws s4) as [|q s5] eqn:E5; [discriminate|].
  destruct (q =? 34); [|discriminate].
  destruct (members f s5) as [[ms' r']|] eqn:E6; [|discriminate].
  inv H. apply IH in E6. shorter. lia.
Qed.

Lemma parse_entry_shorter f s e r :
  parse_entry f s = Some (e, r) -> (length r < length s)%nat.
Proof.
  destruct s as [|c t]; [discriminate|]. cbn [parse_entry].
  destruct (c =? 123); [|discriminate].
  unfold JSONObject.
  destruct (skip_ws t) as [|c' t'] eqn:E; [discriminate|].
  pose proof (skip_ws_cons _ _ _ E).
  destruct (c' =? 125).
  - destruct (entry_of_dict []); [|discriminate]. intros H'; inv H'. simpl. lia.
  - destruct (c' =? 34); [|discriminate].
    destruct (members f t') as [[ms r']|] eqn:E'; [|discriminate].
    apply members_shorter in E'.
    destruct (entry_of_dict ms); [|discriminate]. intros H'; inv H'. simpl. lia.
Qed.

Lemma elements_fuel f :
  forall f' s, (length s <= f)%nat -> (length s <= f')%nat ->
               elements f s = elements f' s.
Proof.
  induction f as [|f IH]; intros f' s Hf Hf'.
  - destruct s; [|simpl in Hf; lia]. destruct f'; reflexivity.
  - destruct f' as [|f']; [destruct s; [reflexivity | simpl in Hf'; lia]|].
    cbn [elements]. rewrite (parse_entry_fuel (S f) (S f') s) by assumption.
    destruct (parse_entry (S f') s) as [[e s1]|] eqn:E1; [|reflexivity].
    apply parse_entry_shorter in E1.
    destruct (skip_ws s1) as [|c s2] eqn:E2; [reflexivity|].
    destruct (c =? 93); [reflexivity|]. destruct (c =? 44); [|reflexivity].
    pose proof (skip_ws_length s2). shorter.
    rewrite (IH f' (skip_ws s2)) by lia. reflexivity.
Qed.

(** Fuel beyond the length of the text changes nothing: [load] never stops
    for want of fuel. *)
Lemma JSONArray_fuel f f' s :
  (length s <= f)%nat -> (length s <= f')%nat -> JSONArray f s = JSONArray f' s.
Proof.
  intros Hf Hf'. unfold JSONArray.
  destruct (skip_ws s) as [|c t] eqn:E; [reflexivity|].
  destruct (c =? 93); [reflexivity|].
  pose proof (skip_ws_length s) as L. rewrite E in L.
  apply elements_fuel; lia.
Qed.

(** ** Entry store *)

Lemma load_entries_absent : load_entries None = (Some (Json.dump None []), Some []).
Proof. reflexivity. Qed.

Lemma load_entries_present text :
  load_entries (Some text) = (Some text, Json.load text).
Proof. reflexivity. Qed.

(** Loading again gives the same entries and leaves the file as it is. *)
Lemma load_entries_again fs fs1 r :
  load_entries fs = (fs1, r) -> load_entries fs1 = (fs1, r).
Proof.
  destruct fs as [text|]; [rewrite load_entries_present | rewrite load_entries_absent];
    intros H; inv H; reflexivity.
Qed.

(** Only an existing file holds entries. *)
Lemma load_entries_nonempty fs fs1 es :
  load_entries fs = (fs1, Some es) -> es <> [] -> fs1 = fs.
Proof.
  destruct fs as [text|]; [rewrite load_entries_present | rewrite load_entries_absent];
    intros H; inv H; congruence.
Qed.

Lemma load_entries_exists fs fs1 r :
  load_entries fs = (fs1, r) -> exists_ fs = true -> fs1 = fs.
Proof.
  destruct fs as [text|]; [rewrite load_entries_present | discriminate].
  intros H; inv H; reflexivity.
Qed.

Lemma load_save es fs :
  forallb entry_representable es = true ->
  load_entries (save_entries es fs) = (save_entries es fs, Some es).
Proof.
  intros H. unfold save_entries. rewrite load_entries_present, load_dump by assumption.
  reflexivity.
Qed.

(** ** The submission handler: its three ways out *)

Section OnSubmit.

Variables (i : Interaction) (fs fs1 : File) (entries : list Entry).
Hypothesis Hload : load_entries fs = (fs1, Some entries).

Lemma on_submit_uid_used :
  In (strip (uid_value_raw i)) (map uid entries) ->
  on_submit i fs = (fs1, Sent uid_already_used).
Proof.
  intros H. unfold on_submit. rewrite Hload.
  apply existsb_str_eqb in H. rewrite H. reflexivity.
Qed.

Lemma on_submit_user_entered :
  ~ In (strip (uid_value_raw i)) (map uid entries) ->
  In (str_of_int (user_id i)) (map discord_user_id entries) ->
  on_submit i fs = (fs1, Sent user_already_entered).
Proof.
  intros H1 H2. unfold on_submit. rewrite Hload.
  apply existsb_str_eqb_false in H1. apply existsb_str_eqb in H2.
  rewrite H1, H2. reflexivity.
Qed.

Lemma on_submit_entered :
  ~ In (strip (uid_value_raw i)) (map uid entries) ->
  ~ In (str_of_int (user_id i)) (map discord_user_id entries) ->
  on_submit i fs
  = (Some (Json.dump (Some 2%nat) (entries ++ [new_entry i])), Sent entered).
Proof.
  intros H1 H2. unfold on_submit. rewrite Hload.
  apply existsb_str_eqb_false in H1. apply existsb_str_eqb_false in H2.
  rewrite H1, H2. reflexivity.
Qed.

End OnSubmit.

Lemma messages_distinct :
  uid_already_used <> user_already_entered
  /\ uid_already_used <> entered /\ user_already_entered <> entered.
Proof. repeat split; discriminate. Qed.

Lemma new_entry_representable i :
  interaction_representable i = true -> entry_representable (new_entry i) = true.
Proof.
  unfold interaction_representable, entry_representable, new_entry, str_of_int.
  rewrite !andb_true_iff. cbn [discord_user_id discord_tag uid timestamp].
  intros [[H1 H2] H3].
  repeat split; auto using lit_representable, json_representable_strip.
Qed.

(** Whatever the outcome, a store of representable entries stays one, and
    only grows by the entry of an accepted submission. *)
Lemma on_submit_store i fs fs1 es :
  load_entries fs = (fs1, Some es) ->
  forallb entry_representable es = true ->
  interaction_representable i = true ->
  exists es',
    load_entries (fst (on_submit i fs)) = (fst (on_submit i fs), Some es')
    /\ forallb entry_representable es' = true
    /\ ((es' = es /\ (In (strip (uid_value_raw i)) (map uid es)
                      \/ In (str_of_int (user_id i)) (map discord_user_id es)))
        \/ (es' = es ++ [new_entry i]
            /\ ~ In (strip (uid_value_raw i)) (map uid es)
            /\ ~ In (str_of_int (user_id i)) (map discord_user_id es))).
Proof.
  intros Hl Hes Hi.
  destruct (in_dec (list_eq_dec N.eq_dec) (strip (uid_value_raw i)) (map uid es))
    as [Hu|Hu].
  { exists es. rewrite (on_submit_uid_used i fs fs1 es Hl Hu). cbn [fst].
    split; [eapply load_entries_again; eassumption|].
    split; [assumption | left; auto]. }
  destruct (in_dec (list_eq_dec N.eq_dec) (str_of_int (user_id i))
              (map discord_user_id es)) as [Hd|Hd].
  { exists es. rewrite (on_submit_user_entered i fs fs1 es Hl Hu Hd). cbn [fst].
    split; [eapply load_entries_again; eassumption|].
    split; [assumption | left; auto]. }
  exists (es ++ [new_entry i]).
  rewrite (on_submit_entered i fs fs1 es Hl Hu Hd). cbn [fst].
  assert (forallb entry_representable (es ++ [new_entry i]) = true) as Hr.
  { rewrite forallb_app, Hes. cbn [forallb].
    rewrite new_entry_representable by assumption. reflexivity. }
  split; [apply (load_save _ None Hr) | split; [assumption | right; auto]].
Qed.

Lemma NoDup_map_snoc {A B} (f : A -> B) (l : list A) (x : A) :
  NoDup (map f l) -> ~ In (f x) (map f l) -> NoDup (map f (l ++ [x])).
Proof.
  intros Hl Hx. rewrite map_app. cbn [map].
  apply NoDup_rev in Hl. rewrite <- (rev_involutive (map f l ++ [f x])).
  apply NoDup_rev. rewrite rev_app_distr. cbn [rev app].
  constructor; [rewrite <- in_rev; assumption | assumption].
Qed.

(** Submissions that collide neither with the store nor with each other
    are all accepted, and the store grows by their entries, in order. *)
Lemma run_distinct subs :
  forall fs fs1 es,
    load_entries fs = (fs1, Some es) ->
    forallb entry_representable es = true ->
    forallb interaction_representable subs = true ->
    NoDup (map user_id subs) ->
    NoDup (map (fun i => strip (uid_value_raw i)) subs) ->
    (forall i, In i subs ->
       ~ In (strip (uid_value_raw i)) (map uid es)
       /\ ~ In (str_of_int (user_id i)) (map discord_user_id es)) ->
    snd (run subs fs) = map (fun _ => Sent entered) subs
    /\ exists fs2,
         load_entries (fst (run subs fs)) = (fs2, Some (es ++ map new_entry subs)).
Proof.
  induction subs as [|i subs IH]; intros fs fs1 es Hl Hes Hsubs Hid Huid Hfresh.
  - cbn [run fst snd map]. rewrite app_nil_r. eauto.
  - cbn [forallb] in Hsubs. apply andb_true_iff in Hsubs as [Hi Hsubs].
    cbn [map] in Hid, Huid.
    apply NoDup_cons_iff in Hid as [Hid1 Hid].
    apply NoDup_cons_iff in Huid as [Huid1 Huid].
    destruct (Hfresh i (or_introl eq_refl)) as [Hu Hd].
    pose proof (on_submit_entered i fs fs1 es Hl Hu Hd) as E.
    cbn [run]. rewrite E.
    set (fs' := Some (dump (Some 2%nat) (es ++ [new_entry i]))).
    assert (forallb entry_representable (es ++ [new_entry i]) = true) as Hr.
    { rewrite forallb_app, Hes. cbn [forallb].
      rewrite new_entry_representable by assumption. reflexivity. }
    destruct (IH fs' fs' (es ++ [new_entry i])) as [Ho (fs2 & Hf)];
      try assumption.
    + apply (load_save _ None Hr).
    + intros j Hj. destruct (Hfresh j (or_intror Hj)) as [Hju Hjd].
      rewrite !map_app, !in_app_iff. cbn [map In new_entry uid discord_user_id].
      split; intros [H|[H|[]]]; try contradiction.
      * apply Huid1. rewrite H. apply (in_map (fun i => strip (uid_value_raw i))), Hj.
      * apply str_of_int_inj in H. apply Hid1. rewrite H. apply in_map, Hj.
    + destruct (run subs fs') as [fs3 outs] eqn:Er. cbn [fst snd] in *.
      split; [cbn [map]; congruence|].
      exists fs2. rewrite Hf, <- app_assoc. reflexivity.
Qed.

(** ** The CSV export *)






Lemma replace_absent old new s : ~ In old s -> replace old new s = s.
Proof.
  unfold replace. induction s as [|c s IH]; cbn [flat_map In]; intros H; [reflexivity|].
  destruct (N.eqb_spec c old); [subst; tauto|].
  rewrite IH by tauto. reflexivity.
Qed.



(** Where the three other fields hold no double quote, the row is the one
    the specification describes. *)
Lemma row_as_specified e :
  quote_free (discord_user_id e) -> quote_free (discord_tag e) ->
  quote_free (timestamp e) -> row e = spec_row e.
Proof.
  unfold quote_free, row, spec_row, spec_field. intros H1 H2 H3.
  rewrite (replace_absent 34 _ (discord_user_id e)),
    (replace_absent 34 _ (discord_tag e)),
    (replace_absent 34 _ (timestamp e)) by assumption.
  reflexivity.
Qed.

(** What the export answers on a store that is not empty. *)
Lemma export_entries_nonempty fs fs1 es csv_bytes :
  load_entries fs = (fs1, Some es) -> es <> [] ->
  encode_utf8 (csv_content es) = Some csv_bytes ->
  export_entries fs = (fs, Sent (exported (length es) csv_bytes)).
Proof.
  intros Hl Hne Hb.
  assert (fs1 = fs) as -> by (eapply load_entries_nonempty; eassumption).
  unfold export_entries. rewrite Hl.
  destruct es as [|e es]; [congruence|]. rewrite Hb. reflexivity.
Qed.

(** The uid of the specification's example: [AB], a double quote, [12]. *)
Lemma uid_quote_doubled :
  quote (replace 34 [34; 34] (lit "AB" ++ [34] ++ lit "12"))
  = [34] ++ lit "AB" ++ [34; 34] ++ lit "12" ++ [34].
Proof. reflexivity. Qed.

(** * The claims *)

(** C1: submissions whose user ids are pairwise distinct and whose trimmed
    UIDs are pairwise distinct, handled one after the other from an empty
    store, are all accepted, and the store then holds one entry per
    submission, in order.  The strings submitted are text the file gives
    back as written: no high surrogate immediately followed by a low one,
    which holds of all Unicode text. *)
Theorem distinct_submissions_all_accepted (subs : list Interaction) (fs : File) :
  snd (load_entries fs) = Some [] ->
  forallb interaction_representable subs = true ->
  NoDup (map user_id subs) ->
  NoDup (map (fun i => strip (uid_value_raw i)) subs) ->
  snd (run subs fs) = map (fun _ => Sent entered) subs
  /\ exists es,
       snd (load_entries (fst (run subs fs))) = Some es
       /\ es = map new_entry subs
       /\ length es = length subs.
Proof.
  intros Hl Hr Hid Huid.
  destruct (load_entries fs) as [fs1 r] eqn:E. cbn [snd] in Hl. subst r.
  destruct (run_distinct subs fs fs1 [] E) as [Ho (fs2 & Hf)]; auto.
  split; [assumption|].
  exists (map new_entry subs). rewrite Hf. cbn [snd app].
  rewrite length_map. auto.
Qed.

Lemma distinct_submissions_all_accepted_witness :
  snd (run [alice; bob; carol_blank] None)
  = [Sent entered; Sent entered; Sent entered]
  /\ exists es,
       snd (load_entries (fst (run [alice; bob; carol_blank] None))) = Some es
       /\ es = [new_entry alice; new_entry bob; new_entry carol_blank]
       /\ length es = 3%nat.
Proof.
  apply (distinct_submissions_all_accepted [alice; bob; carol_blank] None).
  - reflexivity.
  - reflexivity.
  - repeat constructor; simpl; intuition discriminate.
  - repeat constructor; simpl; intuition discriminate.
Defined.

(** C2, where the code departs from it: the entry of a user whose display
    string holds a double quote is exported with that quote left single.
    The attachment has its two lines, every field between double quotes,
    but the row is not the row of the specification, which doubles the
    quote inside the tag. *)
Theorem export_keeps_tag_quote_single :
  let fs := fst (on_submit quoted_tag None) in
  let e := new_entry quoted_tag in
  snd (load_entries fs) = Some [e]
  /\ (exists csv_bytes,
         export_entries fs = (fs, Sent (exported 1 csv_bytes))
         /\ encode_utf8 (csv_content [e]) = Some csv_bytes)
  /\ split 10 (csv_content [e])
     = [ header_line;
         join [44] [ quote (lit "1004");
                     quote (lit "the" ++ [34] ++ lit "one#0042");
                     quote (lit "AB12");
                     quote (lit "2024-05-01T10:09:00") ] ]
  /\ spec_csv_lines [e]
     = [ header_line;
         join [44] [ quote (lit "1004");
                     quote (lit "the" ++ [34; 34] ++ lit "one#0042");
                     quote (lit "AB12");
                     quote (lit "2024-05-01T10:09:00") ] ]
  /\ split 10 (csv_content [e]) <> spec_csv_lines [e].
Proof.
  cbv zeta. split; [reflexivity|].
  split; [eexists; split; reflexivity|].
  split; [reflexivity|].
  split; [reflexivity|].
  vm_compute. discriminate.
Qed.

(** C3: when the trimmed UID is already stored and the submitting user has
    already entered, the handler answers that the UID is already used, not
    that the user has already entered. *)
Theorem uid_check_takes_precedence (i : Interaction) (fs : File)
    (es : list Entry) (e e' : Entry) :
  snd (load_entries fs) = Some es ->
  In e es -> uid e = strip (uid_value_raw i) ->
  In e' es -> discord_user_id e' = str_of_int (user_id i) ->
  snd (on_submit i fs) = Sent uid_already_used
  /\ snd (on_submit i fs) <> Sent user_already_entered.
Proof.
  intros Hl He Hu _ _.
  destruct (load_entries fs) as [fs1 r] eqn:E. cbn [snd] in Hl. subst r.
  rewrite (on_submit_uid_used i fs fs1 es E).
  - split; [reflexivity | discriminate].
  - rewrite <- Hu. apply in_map, He.
Qed.

Lemma uid_check_takes_precedence_witness :
  snd (on_submit alice (fst (run [alice; bob] None))) = Sent uid_already_used
  /\ snd (on_submit alice (fst (run [alice; bob] None)))
     <> Sent user_already_entered.
Proof.
  apply (uid_check_takes_precedence alice (fst (run [alice; bob] None))
           [new_entry alice; new_entry bob] (new_entry alice) (new_entry alice)).
  - reflexivity.
  - simpl; auto.
  - reflexivity.
  - simpl; auto.
  - reflexivity.
Defined.

(** C4: a submission, by whatever user, whose trimmed UID is the uid of a
    stored entry is rejected as UID already used, and the file, hence the
    store, is afterwards what it was before. *)
Theorem reused_uid_rejected (i : Interaction) (fs : File)
    (es : list Entry) (e : Entry) :
  snd (load_entries fs) = Some es ->
  In e es -> uid e = strip (uid_value_raw i) ->
  on_submit i fs = (fs, Sent uid_already_used)
  /\ snd (load_entries (fst (on_submit i fs))) = Some es.
Proof.
  intros Hl He Hu.
  destruct (load_entries fs) as [fs1 r] eqn:E. cbn [snd] in Hl. subst r.
  assert (fs1 = fs) as ->
    by (apply (load_entries_nonempty _ _ _ E); intros ->; contradiction).
  rewrite (on_submit_uid_used i fs fs es E).
  - cbn [fst]. rewrite E. auto.
  - rewrite <- Hu. apply in_map, He.
Qed.

Lemma reused_uid_rejected_witness :
  on_submit bob_copies (fst (run [alice] None))
  = (fst (run [alice] None), Sent uid_already_used)
  /\ snd (load_entries (fst (on_submit bob_copies (fst (run [alice] None)))))
     = Some [new_entry alice].
Proof.
  apply (reused_uid_rejected bob_copies (fst (run [alice] None))
           [new_entry alice] (new_entry alice)).
  - reflexivity.
  - simpl; auto.
  - reflexivity.
Defined.

(** C5: a submission by a user who has an entry in the store, with a
    trimmed UID that no stored entry has, is rejected as user already
    entered, and the file, hence the store, is afterwards what it was
    before. *)
Theorem second_entry_rejected (i : Interaction) (fs : File)
    (es : list Entry) (e : Entry) :
  snd (load_entries fs) = Some es ->
  In e es -> discord_user_id e = str_of_int (user_id i) ->
  (forall e', In e' es -> uid e' <> strip (uid_value_raw i)) ->
  on_submit i fs = (fs, Sent user_already_entered)
  /\ snd (load_entries (fst (on_submit i fs))) = Some es.
Proof.
  intros Hl He Hd Hu.
  destruct (load_entries fs) as [fs1 r] eqn:E. cbn [snd] in Hl. subst r.
  assert (fs1 = fs) as ->
    by (apply (load_entries_nonempty _ _ _ E); intros ->; contradiction).
  rewrite (on_submit_user_entered i fs fs es E).
  - cbn [fst]. rewrite E. auto.
  - intros H. apply in_map_iff in H as (e' & H1 & H2). exact (Hu e' H2 H1).
  - rewrite <- Hd. apply in_map, He.
Qed.

Lemma second_entry_rejected_witness :
  on_submit alice_again (fst (run [alice; bob] None))
  = (fst (run [alice; bob] None), Sent user_already_entered)
  /\ snd (load_entries (fst (on_submit alice_again (fst (run [alice; bob] None)))))
     = Some [new_entry alice; new_entry bob].
Proof.
  apply (second_entry_rejected alice_again (fst (run [alice; bob] None))
           [new_entry alice; new_entry bob] (new_entry alice)).
  - reflexivity.
  - simpl; auto.
  - reflexivity.
  - simpl. intros e' [<-|[<-|[]]]; discriminate.
Defined.

(** C6: every store reached from the empty one by submissions handled one
    after the other has no two entries with the same discord_user_id and no
    two entries with the same uid.  The submissions are those of
    [reachable]: their strings are text the file gives back as written. *)
Theorem reachable_store_unique (fs : File) :
  reachable fs ->
  exists es,
    snd (load_entries fs) = Some es /\ unique_user_ids es /\ unique_uids es.
Proof.
  intros H.
  assert (exists fs1 es,
             load_entries fs = (fs1, Some es)
             /\ forallb entry_representable es = true
             /\ unique_user_ids es /\ unique_uids es) as (fs1 & es & E & _ & Hd & Hu).
  { induction H as [fs H | fs i _ (fs1 & es & E & Hr & Hd & Hu) Hi].
    - destruct (load_entries fs) as [fs1 r] eqn:E. cbn [snd] in H. subst r.
      exists fs1, []. repeat split; auto; constructor.
    - destruct (on_submit_store i fs fs1 es E Hr Hi)
        as (es' & E' & Hr' & [[-> _] | (-> & Hnu & Hnd)]).
      + exists (fst (on_submit i fs)), es. auto.
      + exists (fst (on_submit i fs)), (es ++ [new_entry i]).
        repeat split; auto.
        * apply NoDup_map_snoc; assumption.
        * apply NoDup_map_snoc; assumption. }
  exists es. rewrite E. auto.
Qed.

Lemma reachable_store_unique_witness :
  exists es,
    snd (load_entries (fst (on_submit alice_again
                              (fst (on_submit bob (fst (on_submit alice None)))))))
    = Some es
    /\ unique_user_ids es /\ unique_uids es.
Proof.
  apply (reachable_store_unique
           (fst (on_submit alice_again
                   (fst (on_submit bob (fst (on_submit alice None))))))).
  apply reach_submit; [|reflexivity].
  apply reach_submit; [|reflexivity].
  apply reach_submit; [|reflexivity].
  apply reach_empty. reflexivity.
Defined.

(** C7: when a submission is accepted, the store read back from the file
    is the store before followed by one entry whose uid is the submitted
    text without its leading and trailing whitespace: the text is
    whitespace, the uid, whitespace, and the uid neither starts nor ends
    with whitespace; after the text [  ABC123  ] the last stored uid is
    [ABC123].  The store and the submission hold text the file gives back
    as written. *)
Theorem accepted_uid_is_trimmed (i : Interaction) (fs fs1 : File)
    (es : list Entry) :
  load_entries fs = (fs1, Some es) ->
  forallb entry_representable es = true ->
  interaction_representable i = true ->
  ~ In (strip (uid_value_raw i)) (map uid es) ->
  ~ In (str_of_int (user_id i)) (map discord_user_id es) ->
  exists entry,
    snd (on_submit i fs) = Sent entered
    /\ snd (load_entries (fst (on_submit i fs))) = Some (es ++ [entry])
    /\ (exists ws1 ws2,
           uid_value_raw i = ws1 ++ uid entry ++ ws2
           /\ forallb isspace ws1 = true /\ forallb isspace ws2 = true)
    /\ (forall c t, uid entry = c :: t -> isspace c = false)
    /\ (forall t c, uid entry = t ++ [c] -> isspace c = false)
    /\ (uid_value_raw i = lit "  ABC123  " ->
        option_map (map uid) (snd (load_entries (fst (on_submit i fs))))
        = Some (map uid es ++ [lit "ABC123"])).
Proof.
  intros Hl Hes Hi Hu Hd. exists (new_entry i).
  assert (forallb entry_representable (es ++ [new_entry i]) = true) as Hr.
  { rewrite forallb_app, Hes. cbn [forallb].
    rewrite new_entry_representable by assumption. reflexivity. }
  assert (snd (load_entries (fst (on_submit i fs)))
          = Some (es ++ [new_entry i])) as Hs.
  { rewrite (on_submit_entered i fs fs1 es Hl Hu Hd). cbn [fst].
    change (Some (dump (Some 2%nat) (es ++ [new_entry i])))
      with (save_entries (es ++ [new_entry i]) fs1).
    rewrite (load_save _ fs1 Hr). reflexivity. }
  split; [rewrite (on_submit_entered i fs fs1 es Hl Hu Hd); reflexivity|].
  split; [exact Hs|].
  cbn [new_entry uid].
  destruct (strip_spec (uid_value_raw i)) as (ws1 & ws2 & E & H1 & H2 & Hh & Ht).
  split; [exists ws1, ws2; auto|].
  split; [intros c t Ec; rewrite Ec in Hh; exact Hh|].
  split.
  - intros t c Ec. rewrite Ec, rev_app_distr in Ht. exact Ht.
  - intros Ex. rewrite Hs. cbn [option_map]. rewrite map_app.
    cbn [map new_entry uid]. rewrite Ex. reflexivity.
Qed.

Lemma accepted_uid_is_trimmed_witness :
  exists entry,
    snd (on_submit alice (fst (run [bob] None))) = Sent entered
    /\ snd (load_entries (fst (on_submit alice (fst (run [bob] None)))))
       = Some ([new_entry bob] ++ [entry])
    /\ (exists ws1 ws2,
           uid_value_raw alice = ws1 ++ uid entry ++ ws2
           /\ forallb isspace ws1 = true /\ forallb isspace ws2 = true)
    /\ (forall c t, uid entry = c :: t -> isspace c = false)
    /\ (forall t c, uid entry = t ++ [c] -> isspace c = false)
    /\ (uid_value_raw alice = lit "  ABC123  " ->
        option_map (map uid)
          (snd (load_entries (fst (on_submit alice (fst (run [bob] None))))))
        = Some (map uid [new_entry bob] ++ [lit "ABC123"])).
Proof.
  apply (accepted_uid_is_trimmed alice (fst (run [bob] None))
           (fst (run [bob] None)) [new_entry bob]).
  - reflexivity.
  - reflexivity.
  - reflexivity.
  - simpl. intros [H|[]]. discriminate H.
  - simpl. intros [H|[]]. discriminate H.
Defined.

(** C8: a submission whose text trims to the empty string goes through the
    same checks as any other.  When a stored entry has the empty uid it is
    answered UID already used; else, when the user has an entry, user
    already entered; in both cases the store read back is what it was.
    Else it is accepted, and the store read back is the store before
    followed by one entry, whose uid is the empty string.  That last case
    is for a store and a submission holding text the file gives back as
    written. *)
Theorem blank_uid_is_ordinary (i : Interaction) (fs fs1 : File)
    (es : list Entry) :
  load_entries fs = (fs1, Some es) ->
  strip (uid_value_raw i) = [] ->
  (In [] (map uid es) ->
   snd (on_submit i fs) = Sent uid_already_used
   /\ load_entries (fst (on_submit i fs)) = (fs1, Some es))
  /\ (~ In [] (map uid es) ->
      In (str_of_int (user_id i)) (map discord_user_id es) ->
      snd (on_submit i fs) = Sent user_already_entered
      /\ load_entries (fst (on_submit i fs)) = (fs1, Some es))
  /\ (~ In [] (map uid es) ->
      ~ In (str_of_int (user_id i)) (map discord_user_id es) ->
      forallb entry_representable es = true ->
      interaction_representable i = true ->
      exists entry,
        uid entry = []
        /\ snd (on_submit i fs) = Sent entered
        /\ snd (load_entries (fst (on_submit i fs))) = Some (es ++ [entry])).
Proof.
  intros Hl Hb. split; [|split].
  - intros H. rewrite (on_submit_uid_used i fs fs1 es Hl); [|rewrite Hb; exact H].
    cbn [fst snd]. split; [reflexivity|].
    apply (load_entries_again _ _ _ Hl).
  - intros H1 H2.
    rewrite (on_submit_user_entered i fs fs1 es Hl); [|rewrite Hb|]; try assumption.
    cbn [fst snd]. split; [reflexivity|].
    apply (load_entries_again _ _ _ Hl).
  - intros H1 H2 Hes Hi. exists (new_entry i). split; [exact Hb|].
    assert (forallb entry_representable (es ++ [new_entry i]) = true) as Hr.
    { rewrite forallb_app, Hes. cbn [forallb].
      rewrite new_entry_representable by assumption. reflexivity. }
    rewrite (on_submit_entered i fs fs1 es Hl); [|rewrite Hb|]; try assumption.
    cbn [fst snd]. split; [reflexivity|].
    change (Some (dump (Some 2%nat) (es ++ [new_entry i])))
      with (save_entries (es ++ [new_entry i]) fs1).
    rewrite (load_save _ fs1 Hr). reflexivity.
Qed.

Lemma blank_uid_is_ordinary_witness :
  exists entry,
    uid entry = []
    /\ snd (on_submit carol_blank (fst (run [alice] None))) = Sent entered
    /\ snd (load_entries (fst (on_submit carol_blank (fst (run [alice] None)))))
       = Some ([new_entry alice] ++ [entry]).
Proof.
  apply (proj2 (proj2
           (blank_uid_is_ordinary carol_blank (fst (run [alice] None))
              (fst (run [alice] None)) [new_entry alice]
              eq_refl eq_refl))).
  - simpl. intros [H|[]]. discriminate H.
  - simpl. intros [H|[]]. discriminate H.
  - reflexivity.
  - reflexivity.
Defined.

(** C9: on an empty store the export answers with the warning alone, no
    file attached, and leaves the store empty; a file that was there is not
    touched. *)
Theorem export_of_empty_store (fs fs1 : File) :
  load_entries fs = (fs1, Some []) ->
  export_entries fs = (fs1, Sent no_entries_found)
  /\ export_entries_command true fs = (fs1, Sent no_entries_found)
  /\ file no_entries_found = None
  /\ load_entries fs1 = (fs1, Some [])
  /\ (exists_ fs = true -> fs1 = fs).
Proof.
  intros Hl.
  assert (export_entries fs = (fs1, Sent no_entries_found)) as E
    by (unfold export_entries; rewrite Hl; reflexivity).
  repeat split; auto.
  - eapply load_entries_again; eassumption.
  - eapply load_entries_exists; eassumption.
Qed.

Lemma export_of_empty_store_witness :
  export_entries None = (Some (Json.dump None []), Sent no_entries_found)
  /\ export_entries_command true None
     = (Some (Json.dump None []), Sent no_entries_found)
  /\ file no_entries_found = None
  /\ load_entries (Some (Json.dump None []))
     = (Some (Json.dump None []), Some [])
  /\ (exists_ None = true -> Some (Json.dump None []) = None).
Proof.
  apply (export_of_empty_store None (Some (Json.dump None []))).
  reflexivity.
Defined.

(** C10: entries made of strings JSON can represent, once saved, are what
    the next load returns, in the same order; the load leaves the file as
    saved. *)
Theorem load_after_save (entries : list Entry) (fs : File) :
  forallb entry_representable entries = true ->
  load_entries (save_entries entries fs) = (save_entries entries fs, Some entries).
Proof.
  intros H. unfold save_entries.
  rewrite load_entries_present.
  rewrite (load_dump (Some 2%nat) entries H).
  reflexivity.
Qed.

Lemma load_after_save_witness :
  load_entries (save_entries [new_entry bob; new_entry quoted_tag; new_entry alice] None)
  = (save_entries [new_entry bob; new_entry quoted_tag; new_entry alice] None,
     Some [new_entry bob; new_entry quoted_tag; new_entry alice]).
Proof.
  apply (load_after_save [new_entry bob; new_entry quoted_tag; new_entry alice] None).
  reflexivity.
Defined.

(** * Further properties *)

(** ** The submission handler *)

Lemma entered_not_rejection :
  Sent entered <> Sent uid_already_used
  /\ Sent entered <> Sent user_already_entered.
Proof. split; discriminate. Qed.

(** X1: from a store that loads, a submission is answered with the success
    message exactly when its trimmed UID is the uid of no stored entry and
    its user has no stored entry; answered otherwise, it leaves the file as
    the load left it. *)
Theorem accepted_iff_fresh (i : Interaction) (fs fs1 : File) (es : list Entry) :
  load_entries fs = (fs1, Some es) ->
  (snd (on_submit i fs) = Sent entered
   <-> ~ In (strip (uid_value_raw i)) (map uid es)
       /\ ~ In (str_of_int (user_id i)) (map discord_user_id es))
  /\ (snd (on_submit i fs) <> Sent entered -> fst (on_submit i fs) = fs1).
Proof.
  intros Hl.
  destruct (in_dec (list_eq_dec N.eq_dec) (strip (uid_value_raw i)) (map uid es))
    as [Hu|Hu].
  { rewrite (on_submit_uid_used i fs fs1 es Hl Hu). cbn [fst snd].
    split; [split; [discriminate | tauto] | reflexivity]. }
  destruct (in_dec (list_eq_dec N.eq_dec) (str_of_int (user_id i))
              (map discord_user_id es)) as [Hd|Hd].
  { rewrite (on_submit_user_entered i fs fs1 es Hl Hu Hd). cbn [fst snd].
    split; [split; [discriminate | tauto] | reflexivity]. }
  rewrite (on_submit_entered i fs fs1 es Hl Hu Hd). cbn [fst snd].
  split; [tauto | congruence].
Qed.

Lemma accepted_iff_fresh_witness :
  (snd (on_submit bob_copies (fst (run [alice] None))) = Sent entered
   <-> ~ In (strip (uid_value_raw bob_copies)) (map uid [new_entry alice])
       /\ ~ In (str_of_int (user_id bob_copies))
               (map discord_user_id [new_entry alice]))
  /\ (snd (on_submit bob_copies (fst (run [alice] None))) <> Sent entered ->
      fst (on_submit bob_copies (fst (run [alice] None)))
      = fst (run [alice] None)).
Proof.
  apply (accepted_iff_fresh bob_copies (fst (run [alice] None))
           (fst (run [alice] None)) [new_entry alice]).
  reflexivity.
Defined.

(** X2: whatever [on_submit] sends is for the submitting user alone and
    carries no file; and from a store that loads it does send a message,
    one of its three. *)
Theorem on_submit_replies_privately (i : Interaction) (fs : File) :
  (forall m, snd (on_submit i fs) = Sent m ->
             ephemeral m = true /\ file m = None)
  /\ (forall es, snd (load_entries fs) = Some es ->
        snd (on_submit i fs) = Sent entered
        \/ snd (on_submit i fs) = Sent uid_already_used
        \/ snd (on_submit i fs) = Sent user_already_entered).
Proof.
  unfold on_submit.
  destruct (load_entries fs) as [fs1 [es|]]; cbn [snd].
  - destruct (existsb _ es); [|destruct (existsb _ es)]; cbn [snd];
      (split; [intros m H; inv H; split; reflexivity | intros; auto]).
  - split; [discriminate | intros es H; discriminate].
Qed.

(** X3: a store with no two entries of the same discord_user_id and no two
    of the same uid is still one after [on_submit], whatever the
    submission; the store and the submission hold text the file gives back
    as written. *)
Theorem on_submit_keeps_unique (i : Interaction) (fs fs1 : File)
    (es : list Entry) :
  load_entries fs = (fs1, Some es) ->
  forallb entry_representable es = true ->
  interaction_representable i = true ->
  unique_user_ids es -> unique_uids es ->
  exists es',
    snd (load_entries (fst (on_submit i fs))) = Some es'
    /\ unique_user_ids es' /\ unique_uids es'.
Proof.
  intros Hl Hr Hi Hd Hu.
  destruct (on_submit_store i fs fs1 es Hl Hr Hi)
    as (es' & E & _ & [[-> _] | (-> & Hnu & Hnd)]);
    eexists; rewrite E; cbn [snd]; (split; [reflexivity|]).
  - auto.
  - split; apply NoDup_map_snoc; assumption.
Qed.

Lemma on_submit_keeps_unique_witness :
  exists es',
    snd (load_entries (fst (on_submit bob (fst (run [alice] None))))) = Some es'
    /\ unique_user_ids es' /\ unique_uids es'.
Proof.
  apply (on_submit_keeps_unique bob (fst (run [alice] None))
           (fst (run [alice] None)) [new_entry alice]).
  - reflexivity.
  - reflexivity.
  - reflexivity.
  - repeat constructor; simpl; tauto.
  - repeat constructor; simpl; tauto.
Defined.

Lemma on_submit_outcome i fs fs1 es :
  load_entries fs = (fs1, Some es) ->
  forallb entry_representable es = true ->
  interaction_representable i = true ->
  exists fs2,
    load_entries (fst (on_submit i fs))
    = (fs2, Some (es ++ accepted [i] [snd (on_submit i fs)]))
    /\ forallb entry_representable (es ++ accepted [i] [snd (on_submit i fs)])
       = true
    /\ (snd (on_submit i fs) = Sent entered
        \/ snd (on_submit i fs) = Sent uid_already_used
        \/ snd (on_submit i fs) = Sent user_already_entered).
Proof.
  intros Hl Hes Hi.
  destruct (in_dec (list_eq_dec N.eq_dec) (strip (uid_value_raw i)) (map uid es))
    as [Hu|Hu].
  { rewrite (on_submit_uid_used i fs fs1 es Hl Hu). cbn [fst snd accepted].
    change (is_entered (Sent uid_already_used)) with false. cbv iota.
    rewrite app_nil_r. exists fs1.
    split; [eapply load_entries_again; eassumption | auto]. }
  destruct (in_dec (list_eq_dec N.eq_dec) (str_of_int (user_id i))
              (map discord_user_id es)) as [Hd|Hd].
  { rewrite (on_submit_user_entered i fs fs1 es Hl Hu Hd). cbn [fst snd accepted].
    change (is_entered (Sent user_already_entered)) with false. cbv iota.
    rewrite app_nil_r. exists fs1.
    split; [eapply load_entries_again; eassumption | auto]. }
  rewrite (on_submit_entered i fs fs1 es Hl Hu Hd). cbn [fst snd accepted].
  change (is_entered (Sent entered)) with true. cbv iota.
  assert (forallb entry_representable (es ++ [new_entry i]) = true) as Hr.
  { rewrite forallb_app, Hes. cbn [forallb].
    rewrite new_entry_representable by assumption. reflexivity. }
  eexists. split; [apply (load_save _ None Hr) | auto].
Qed.

(** X4: submissions handled one after the other only append: the store
    afterwards is the store before followed by the entries of the
    submissions answered with the success message, in order; every
    submission is answered with one of the three messages. *)
Theorem run_appends_accepted (subs : list Interaction) (fs fs1 : File)
    (es : list Entry) :
  load_entries fs = (fs1, Some es) ->
  forallb entry_representable es = true ->
  forallb interaction_representable subs = true ->
  snd (load_entries (fst (run subs fs)))
  = Some (es ++ accepted subs (snd (run subs fs)))
  /\ length (snd (run subs fs)) = length subs
  /\ Forall (fun o => o = Sent entered \/ o = Sent uid_already_used
                      \/ o = Sent user_already_entered)
            (snd (run subs fs)).
Proof.
  revert fs fs1 es.
  induction subs as [|i subs IH]; intros fs fs1 es Hl Hes Hsubs.
  - cbn [run fst snd accepted length]. rewrite Hl, app_nil_r. auto.
  - cbn [forallb] in Hsubs. apply andb_true_iff in Hsubs as [Hi Hsubs].
    destruct (on_submit_outcome i fs fs1 es Hl Hes Hi) as (fs2 & E & Hr & Ho).
    cbn [run].
    destruct (on_submit i fs) as [fs' o] eqn:Eo. cbn [fst snd] in E, Hr, Ho.
    destruct (IH fs' fs2 _ E Hr Hsubs) as (Hs & Hn & Hf).
    destruct (run subs fs') as [fs3 outs]. cbn [fst snd] in *.
    split; [|split; [cbn [length]; congruence | constructor; assumption]].
    rewrite Hs, <- app_assoc. f_equal. f_equal. cbn [accepted].
    destruct (is_entered o); reflexivity.
Qed.

Lemma run_appends_accepted_witness :
  snd (load_entries (fst (run [bob; alice_again; bob_copies] (fst (run [alice] None)))))
  = Some ([new_entry alice]
          ++ accepted [bob; alice_again; bob_copies]
               (snd (run [bob; alice_again; bob_copies] (fst (run [alice] None)))))
  /\ length (snd (run [bob; alice_again; bob_copies] (fst (run [alice] None))))
     = length [bob; alice_again; bob_copies]
  /\ Forall (fun o => o = Sent entered \/ o = Sent uid_already_used
                      \/ o = Sent user_already_entered)
            (snd (run [bob; alice_again; bob_copies] (fst (run [alice] None)))).
Proof.
  apply (run_appends_accepted [bob; alice_again; bob_copies]
           (fst (run [alice] None)) (fst (run [alice] None)) [new_entry alice]).
  - reflexivity.
  - reflexivity.
  - reflexivity.
Defined.




(** *** Whitespace around the UID *)

Lemma lstrip_app_ws ws s :
  forallb isspace ws = true -> lstrip (ws ++ s) = lstrip s.
Proof.
  induction ws as [|c ws IH]; cbn [app lstrip forallb]; [reflexivity|].
  intros H. apply andb_true_iff in H as [-> H]. auto.
Qed.

Lemma rstrip_app_ws s ws :
  forallb isspace ws = true -> rstrip (s ++ ws) = rstrip s.
Proof.
  intros H. unfold rstrip. rewrite rev_app_distr, lstrip_app_ws; [reflexivity|].
  apply forallb_forall. intros c Hc. apply in_rev in Hc.
  eapply forallb_forall in H; eassumption.
Qed.

Lemma lstrip_app_kept s t : lstrip s <> [] -> lstrip (s ++ t) = lstrip s ++ t.
Proof.
  induction s as [|c s IH]; cbn [lstrip app]; [congruence|].
  destruct (isspace c); auto.
Qed.

Lemma lstrip_nil_ws s : lstrip s = [] -> forallb isspace s = true.
Proof.
  induction s as [|c s IH]; cbn [lstrip forallb]; [reflexivity|].
  destruct (isspace c); [auto | discriminate].
Qed.

(** Whitespace put around a text does not change what [strip] returns. *)
Lemma strip_pad ws1 s ws2 :
  forallb isspace ws1 = true -> forallb isspace ws2 = true ->
  strip (ws1 ++ s ++ ws2) = strip s.
Proof.
  intros H1 H2. unfold strip. rewrite lstrip_app_ws by assumption.
  destruct (lstrip s) as [|c t] eqn:E.
  - rewrite lstrip_app_ws by (apply lstrip_nil_ws; assumption).
    rewrite <- (app_nil_r ws2), lstrip_app_ws by assumption. reflexivity.
  - rewrite lstrip_app_kept by congruence. rewrite E.
    apply rstrip_app_ws; assumption.
Qed.

Lemma strip_idem s : strip (strip s) = strip s.
Proof.
  destruct (strip_spec s) as (ws1 & ws2 & E & H1 & H2 & _).
  rewrite E at 2. symmetry. apply strip_pad; assumption.
Qed.

(** X6: whitespace typed before and after the UID changes nothing: the
    handler answers the same and leaves the same file as for the UID typed
    alone. *)
Theorem whitespace_around_uid_ignored (i : Interaction) (ws1 ws2 : str)
    (fs : File) :
  forallb isspace ws1 = true -> forallb isspace ws2 = true ->
  on_submit (with_uid_value i (ws1 ++ uid_value_raw i ++ ws2)) fs
  = on_submit i fs.
Proof.
  intros H1 H2. unfold on_submit, new_entry, with_uid_value.
  cbn [user_id user_str uid_value_raw utcnow_isoformat].
  rewrite strip_pad by assumption. reflexivity.
Qed.

Lemma whitespace_around_uid_ignored_witness :
  on_submit (with_uid_value bob ([9; 0xA0] ++ uid_value_raw bob ++ [0x3000; 10]))
            (fst (run [alice] None))
  = on_submit bob (fst (run [alice] None)).
Proof.
  apply (whitespace_around_uid_ignored bob [9; 0xA0] [0x3000; 10]
           (fst (run [alice] None))).
  - reflexivity.
  - reflexivity.
Defined.

(** X7: every entry of a store the program has produced has a uid that
    neither starts nor ends with whitespace, and a discord_user_id that is
    the decimal writing of an integer. *)
Theorem reachable_entries_shape (fs : File) :
  reachable fs ->
  exists es,
    snd (load_entries fs) = Some es
    /\ Forall (fun e => strip (uid e) = uid e
                        /\ exists z, discord_user_id e = str_of_int z) es.
Proof.
  intros H.
  assert (exists fs1 es,
             load_entries fs = (fs1, Some es)
             /\ forallb entry_representable es = true
             /\ Forall (fun e => strip (uid e) = uid e
                                 /\ exists z, discord_user_id e = str_of_int z) es)
    as (fs1 & es & E & _ & HF).
  { induction H as [fs H | fs i _ (fs1 & es & E & Hr & HF) Hi].
    - destruct (load_entries fs) as [fs1 r] eqn:E. cbn [snd] in H. subst r.
      exists fs1, []. auto.
    - destruct (on_submit_store i fs fs1 es E Hr Hi)
        as (es' & E' & Hr' & [[-> _] | (-> & _ & _)]).
      + eauto.
      + exists (fst (on_submit i fs)), (es ++ [new_entry i]).
        repeat split; auto.
        apply Forall_app. split; [assumption|].
        constructor; [|constructor]. cbn [new_entry uid discord_user_id].
        split; [apply strip_idem | eauto]. }
  exists es. rewrite E. auto.
Qed.

Lemma reachable_entries_shape_witness :
  exists es,
    snd (load_entries (fst (on_submit carol_blank (fst (on_submit alice None)))))
    = Some es
    /\ Forall (fun e => strip (uid e) = uid e
                        /\ exists z, discord_user_id e = str_of_int z) es.
Proof.
  apply (reachable_entries_shape
           (fst (on_submit carol_blank (fst (on_submit alice None))))).
  apply reach_submit; [|reflexivity].
  apply reach_submit; [|reflexivity].
  apply reach_empty. reflexivity.
Defined.

(** X8: two submissions are given the same discord_user_id exactly when
    they come from the same user id. *)
Theorem same_stored_id_same_user (i j : Interaction) :
  discord_user_id (new_entry i) = discord_user_id (new_entry j)
  <-> user_id i = user_id j.
Proof.
  cbn [new_entry discord_user_id]. split.
  - apply str_of_int_inj.
  - intros ->. reflexivity.
Qed.

(** ** The file [save_entries] writes *)

Lemma ascii_text_app a b : ascii_text (a ++ b) = ascii_text a && ascii_text b.
Proof. apply forallb_app. Qed.

Lemma hexdigit_ascii d : d < 16 -> ascii_text [hexdigit d] = true.
Proof.
  intros H. unfold ascii_text, hexdigit. cbn [forallb].
  destruct (N.ltb_spec d 10); ncases; reflexivity.
Qed.

Lemma u_escape_ascii n : ascii_text (u_escape n) = true.
Proof.
  unfold u_escape.
  change (ascii_text ([92; 117] ++ [hexdigit (n / 4096 mod 16)]
                      ++ [hexdigit (n / 256 mod 16)]
                      ++ [hexdigit (n / 16 mod 16)]
                      ++ [hexdigit (n mod 16)]) = true).
  rewrite !ascii_text_app, !hexdigit_ascii by lia. reflexivity.
Qed.

Lemma encode_char_ascii c : ascii_text (encode_char c) = true.
Proof.
  unfold encode_char.
  destruct (c =? 34); [reflexivity|]. destruct (c =? 92); [reflexivity|].
  destruct (c =? 10); [reflexivity|]. destruct (c =? 13); [reflexivity|].
  destruct (c =? 9); [reflexivity|]. destruct (c =? 8); [reflexivity|].
  destruct (c =? 12); [reflexivity|].
  destruct ((32 <=? c) && (c <=? 126)) eqn:E.
  - unfold ascii_text. cbn [forallb]. rewrite E, orb_true_r. reflexivity.
  - destruct (c <? 0x10000); [apply u_escape_ascii|].
    cbv zeta. rewrite ascii_text_app, !u_escape_ascii. reflexivity.
Qed.

Lemma encode_basestring_ascii_ascii s :
  ascii_text (encode_basestring_ascii s) = true.
Proof.
  unfold encode_basestring_ascii.
  change (ascii_text ([34] ++ flat_map encode_char s ++ [34]) = true).
  rewrite !ascii_text_app. cbn [andb ascii_text forallb].
  assert (ascii_text (flat_map encode_char s) = true) as ->; [|reflexivity].
  induction s as [|c s IH]; cbn [flat_map]; [reflexivity|].
  rewrite ascii_text_app, encode_char_ascii, IH. reflexivity.
Qed.

Lemma newline_indent_ascii indent level :
  ascii_text (newline_indent indent level) = true.
Proof.
  destruct indent as [n|]; [|reflexivity]. unfold newline_indent.
  change (ascii_text ([10] ++ repeat 32 (n * level)%nat) = true).
  rewrite ascii_text_app. cbn [ascii_text forallb andb].
  induction (n * level)%nat as [|k IH]; [reflexivity | exact IH].
Qed.

Lemma join_ascii sep l :
  ascii_text sep = true -> forallb ascii_text l = true ->
  ascii_text (join sep l) = true.
Proof.
  intros Hs. induction l as [|x l IH]; [reflexivity|].
  cbn [forallb]. intros H. apply andb_true_iff in H as [Hx Hl].
  destruct l as [|y l]; [exact Hx|].
  rewrite join_cons, !ascii_text_app, Hx, Hs, (IH Hl). reflexivity.
Qed.

Lemma encode_container_ascii o c indent level elems :
  ascii_text [o; c] = true -> forallb ascii_text elems = true ->
  ascii_text (encode_container o c indent level elems) = true.
Proof.
  intros Hoc He. destruct elems as [|x l]; [exact Hoc|].
  rewrite encode_container_cons.
  change (ascii_text ([o] ++ newline_indent indent (S level)
                      ++ join (item_separator indent
                               ++ newline_indent indent (S level)) (x :: l)
                      ++ newline_indent indent level ++ [c]) = true).
  rewrite !ascii_text_app, !newline_indent_ascii, join_ascii; try assumption.
  - unfold ascii_text in *. cbn [forallb] in *.
    apply andb_true_iff in Hoc as [-> Hoc]. rewrite Hoc. reflexivity.
  - rewrite ascii_text_app, newline_indent_ascii.
    destruct indent; reflexivity.
Qed.

Lemma dump_ascii indent es : ascii_text (dump indent es) = true.
Proof.
  unfold dump. apply encode_container_ascii; [reflexivity|].
  apply forallb_forall. intros x Hx. apply in_map_iff in Hx as (e & <- & _).
  unfold encode_entry, encode_dict.
  apply encode_container_ascii; [reflexivity|].
  apply forallb_forall. intros y Hy. apply in_map_iff in Hy as (kv & <- & _).
  unfold encode_item, key_separator.
  rewrite !ascii_text_app, !encode_basestring_ascii_ascii. reflexivity.
Qed.

Lemma ascii_utf8 s : ascii_text s = true -> encode_utf8 s = Some s.
Proof.
  unfold ascii_text. induction s as [|c s IH]; [reflexivity|].
  cbn [forallb encode_utf8]. intros H. apply andb_true_iff in H as [Hc Hs].
  rewrite (IH Hs). unfold utf8_char.
  assert (c < 0x80) as Hlt by (revert Hc; ncases; discriminate).
  apply N.ltb_lt in Hlt. rewrite Hlt. reflexivity.
Qed.

(** X9: whatever the entries hold, the text [save_entries] writes is made
    of printable ASCII characters and line feeds only, so writing it
    through the UTF-8 codec cannot fail and stores it byte for byte. *)
Theorem save_entries_writes_ascii (entries : list Entry) (fs : File) :
  exists text,
    save_entries entries fs = Some text
    /\ ascii_text text = true
    /\ encode_utf8 text = Some text.
Proof.
  exists (dump (Some 2%nat) entries).
  split; [reflexivity|].
  split; [apply dump_ascii | apply ascii_utf8, dump_ascii].
Qed.

(** ** The export *)

Lemma export_entries_file fs : fst (export_entries fs) = fst (load_entries fs).
Proof.
  unfold export_entries. destruct (load_entries fs) as [fs1 [es|]]; [|reflexivity].
  destruct es; [reflexivity|].
  destruct (encode_utf8 _); reflexivity.
Qed.

Lemma load_entries_twice fs : load_entries (fst (load_entries fs)) = load_entries fs.
Proof.
  destruct (load_entries fs) as [fs1 r] eqn:E. cbn [fst].
  apply (load_entries_again _ _ _ E).
Qed.

(** X10: the export writes nothing: exporting again gives the same answer,
    a submission handled after an export is handled as without it, and a
    file that was there is left as it was. *)
Theorem export_changes_nothing (i : Interaction) (fs : File) :
  export_entries (fst (export_entries fs)) = export_entries fs
  /\ on_submit i (fst (export_entries fs)) = on_submit i fs
  /\ (exists_ fs = true -> fst (export_entries fs) = fs).
Proof.
  rewrite export_entries_file.
  split; [|split].
  - unfold export_entries. rewrite load_entries_twice. reflexivity.
  - unfold on_submit. rewrite load_entries_twice. reflexivity.
  - destruct (load_entries fs) as [fs1 r] eqn:E. cbn [fst].
    apply (load_entries_exists _ _ _ E).
Qed.

(** X11: a file that is blank, or whose text starts with a character no
    JSON value starts with, makes both handlers raise: nothing is sent and
    the file is left as it was. *)
Theorem unreadable_file_raises (i : Interaction) (text : str) :
  (forall c t, skip_ws text = c :: t -> json_start c = false) ->
  on_submit i (Some text) = (Some text, Raised StoreUnreadable)
  /\ export_entries (Some text) = (Some text, Raised StoreUnreadable).
Proof.
  intros H.
  assert (load text = None) as E.
  { unfold load. destruct (skip_ws text) as [|c t]; [reflexivity|].
    specialize (H c t eq_refl). unfold json_start in H.
    destruct (N.eqb_spec c 91); [subst; discriminate | reflexivity]. }
  unfold on_submit, export_entries. rewrite load_entries_present, E. auto.
Qed.

Lemma unreadable_file_raises_witness :
  on_submit alice (Some (lit "  ")) = (Some (lit "  "), Raised StoreUnreadable)
  /\ export_entries (Some (lit "  ")) = (Some (lit "  "), Raised StoreUnreadable).
Proof.
  apply (unreadable_file_raises alice (lit "  ")).
  intros c t H. discriminate H.
Defined.

(** *** Lines *)



(** *** Encoding the attachment *)

Lemma encode_utf8_app a b :
  encode_utf8 (a ++ b)
  = match encode_utf8 a, encode_utf8 b with
    | Some x, Some y => Some (x ++ y)
    | _, _ => None
    end.
Proof.
  induction a as [|c a IH]; cbn [app encode_utf8].
  - destruct (encode_utf8 b); reflexivity.
  - rewrite IH. destruct (utf8_char c); [|reflexivity].
    destruct (encode_utf8 a); [|reflexivity].
    destruct (encode_utf8 b); [|reflexivity].
    rewrite app_assoc. reflexivity.
Qed.

Lemma utf8_char_none c : utf8_char c = None <-> is_surrogate c = true.
Proof.
  unfold utf8_char, is_surrogate.
  destruct (N.ltb_spec c 0x80); [split; [discriminate | ncases; discriminate]|].
  destruct (N.ltb_spec c 0x800); [split; [discriminate | ncases; discriminate]|].
  destruct ((0xD800 <=? c) && (c <=? 0xDFFF)); [tauto|].
  destruct (c <? 0x10000); split; discriminate.
Qed.

(** [encode] fails exactly on the strings that hold a surrogate. *)
Lemma encode_utf8_none s :
  encode_utf8 s = None <-> exists c, In c s /\ is_surrogate c = true.
Proof.
  induction s as [|c s IH]; cbn [encode_utf8 In].
  - split; [discriminate | intros (c & [] & _)].
  - destruct (utf8_char c) as [b|] eqn:Ec.
    + assert (is_surrogate c = false) as Hc.
      { destruct (is_surrogate c) eqn:E; [|reflexivity].
        apply utf8_char_none in E. congruence. }
      destruct (encode_utf8 s) as [bs|].
      * split; [discriminate|].
        intros (d & [<-|Hd] & Hs); [congruence|].
        assert (Some bs = None) as F by (apply IH; eauto).
        discriminate F.
      * split; [|reflexivity]. intros _.
        destruct (proj1 IH eq_refl) as (d & Hd & Hs). eauto.
    + split; [|reflexivity]. intros _. exists c.
      split; [auto | apply utf8_char_none; assumption].
Qed.

Lemma in_join c sep l :
  In c (join sep l) -> In c sep \/ exists x, In x l /\ In c x.
Proof.
  induction l as [|x l IH]; [intros []|].
  destruct l as [|y l]; [cbn [join]; eauto using in_eq|].
  rewrite join_cons, !in_app_iff. intros [H|[H|H]].
  - right. exists x. split; [left; reflexivity | assumption].
  - auto.
  - destruct (IH H) as [Hs|(z & Hz & Hc)]; [auto|].
    right. exists z. split; [right; assumption | assumption].
Qed.

Lemma join_in c sep l x : In x l -> In c x -> In c (join sep l).
Proof.
  induction l as [|y l IH]; [intros []|].
  intros Hx Hc. destruct l as [|z l].
  - destruct Hx as [->|[]]. exact Hc.
  - rewrite join_cons, !in_app_iff.
    destruct Hx as [->|Hx]; [left; exact Hc | right; right; auto].
Qed.

Lemma in_quote_inv c s : In c (quote s) -> c = 34 \/ In c s.
Proof.
  unfold quote. cbn [In]. rewrite in_app_iff. cbn [In].
  intros [H|[H|[H|[]]]]; auto.
Qed.

Lemma in_row c e :
  In c (row e) ->
  c = 34 \/ c = 44 \/ exists f, In f (entry_fields e) /\ In c f.
Proof.
  unfold row, entry_fields. intros H.
  apply in_join in H as [[<-|[]]|(x & Hx & Hc)]; [auto|].
  assert (forall s, In c (replace 34 [34; 34] s) -> c = 34 \/ In c s) as Hr.
  { intros s. unfold replace. rewrite in_flat_map. intros (y & Hy & H).
    destruct (y =? 34); cbn [In] in H; intuition congruence. }
  cbn [In] in Hx. destruct Hx as [<-|[<-|[<-|[<-|[]]]]];
    apply in_quote_inv in Hc as [->|Hc]; auto.
  - right. right. exists (discord_user_id e). cbn [In]. auto 8.
  - right. right. exists (discord_tag e). cbn [In]. auto 8.
  - apply Hr in Hc as [->|Hc]; [auto|].
    right. right. exists (uid e). cbn [In]. auto 8.
  - right. right. exists (timestamp e). cbn [In]. auto 8.
Qed.

Lemma field_in_row c e f :
  In f (entry_fields e) -> In c f -> In c (row e).
Proof.
  unfold row, entry_fields. intros Hf Hc.
  assert (forall s, In c s -> In c (quote s)) as Hq.
  { intros s Hs. unfold quote. right. apply in_app_iff. auto. }
  assert (forall s, In c s -> In c (replace 34 [34; 34] s)) as Hr.
  { intros s Hs. unfold replace. apply in_flat_map. exists c.
    split; [assumption|]. destruct (c =? 34) eqn:E; [|left; reflexivity].
    apply N.eqb_eq in E. subst. left. reflexivity. }
  cbn [In] in Hf. destruct Hf as [<-|[<-|[<-|[<-|[]]]]].
  - apply (join_in c [44] _ (quote (discord_user_id e))); cbn [In]; auto.
  - apply (join_in c [44] _ (quote (discord_tag e))); cbn [In]; auto.
  - apply (join_in c [44] _ (quote (replace 34 [34; 34] (uid e))));
      cbn [In]; auto.
  - apply (join_in c [44] _ (quote (timestamp e))); cbn [In]; auto 6.
Qed.

(** X13: the export of a store that is not empty sends the file when no
    field of any entry holds a surrogate code point, and raises the
    encoding error, sending nothing, when some field does. *)
Theorem export_fails_on_surrogates_only (fs fs1 : File) (es : list Entry) :
  load_entries fs = (fs1, Some es) -> es <> [] ->
  ((forall e f c, In e es -> In f (entry_fields e) -> In c f ->
                  is_surrogate c = false) ->
   exists csv_bytes,
     encode_utf8 (csv_content es) = Some csv_bytes
     /\ export_entries fs = (fs, Sent (exported (length es) csv_bytes)))
  /\ ((exists e f c, In e es /\ In f (entry_fields e) /\ In c f
                     /\ is_surrogate c = true) ->
      export_entries fs = (fs, Raised UnicodeEncodeError)).
Proof.
  intros Hl Hne.
  assert (fs1 = fs) as -> by (eapply load_entries_nonempty; eassumption).
  split.
  - intros Hs.
    destruct (encode_utf8 (csv_content es)) as [b|] eqn:E.
    + exists b. split; [reflexivity|].
      apply (export_entries_nonempty fs fs es b); assumption.
    + exfalso. apply encode_utf8_none in E as (c & Hc & Hsur).
      unfold csv_content, header in Hc. rewrite !in_app_iff in Hc.
      assert (forall d, In d (lit "discordUserId,discordTag,uid,timestamp")
                        -> is_surrogate d = false) as Hh.
      { intros d Hd. unfold lit in Hd. apply in_map_iff in Hd as (a & <- & _).
        pose proof (N_ascii_bounded a). unfold is_surrogate. ncases. }
      destruct Hc as [[Hc|[<-|[]]]|Hc];
        [rewrite (Hh c Hc) in Hsur; discriminate | discriminate Hsur |].
      apply in_join in Hc as [[<-|[]]|(r & Hr & Hc)]; [discriminate Hsur|].
      apply in_map_iff in Hr as (e & <- & He).
      apply in_row in Hc as [->|[->|(f & Hf & Hc)]];
        [discriminate Hsur | discriminate Hsur |].
      rewrite (Hs e f c He Hf Hc) in Hsur. discriminate.
  - intros (e & f & c & He & Hf & Hc & Hsur).
    assert (encode_utf8 (csv_content es) = None) as E.
    { apply encode_utf8_none. exists c. split; [|assumption].
      unfold csv_content. rewrite in_app_iff. right.
      apply (join_in c [10] (map row es) (row e)).
      - apply in_map, He.
      - apply (field_in_row c e f Hf Hc). }
    unfold export_entries. rewrite Hl. destruct es as [|e0 es]; [congruence|].
    rewrite E. reflexivity.
Qed.

Lemma export_fails_on_surrogates_only_witness :
  ((forall e f c, In e [new_entry alice] -> In f (entry_fields e) -> In c f ->
                  is_surrogate c = false) ->
   exists csv_bytes,
     encode_utf8 (csv_content [new_entry alice]) = Some csv_bytes
     /\ export_entries (fst (run [alice] None))
        = (fst (run [alice] None),
           Sent (exported (length [new_entry alice]) csv_bytes)))
  /\ ((exists e f c, In e [new_entry alice] /\ In f (entry_fields e) /\ In c f
                     /\ is_surrogate c = true) ->
      export_entries (fst (run [alice] None))
      = (fst (run [alice] None), Raised UnicodeEncodeError)).
Proof.
  apply (export_fails_on_surrogates_only (fst (run [alice] None))
           (fst (run [alice] None)) [new_entry alice]).
  - reflexivity.
  - discriminate.
Defined.

(** *** Quoting *)

Lemma replace_quote_length s :
  (length s <= length (replace 34 [34; 34] s)%N)%nat
  /\ (In 34 s -> (length s < length (replace 34 [34; 34] s)%N)%nat).
Proof.
  unfold replace. induction s as [|c s [IH1 IH2]]; cbn [flat_map In length].
  - split; [lia | intros []].
  - rewrite length_app. destruct (N.eqb_spec c 34) as [->|Hc]; cbn [length].
    + split; intros; lia.
    + split; [lia|]. intros [H|H]; [congruence|]. specialize (IH2 H). lia.
Qed.

Lemma row_length e :
  length (row e)
  = (length (discord_user_id e) + length (discord_tag e)
     + length (replace 34 [34; 34] (uid e))%N + length (timestamp e) + 11)%nat.
Proof.
  unfold row, quote. cbn [join]. repeat (rewrite length_app || cbn [length]).
  lia.
Qed.

Lemma spec_row_length e :
  length (spec_row e)
  = (length (replace 34 [34; 34] (discord_user_id e))%N
     + length (replace 34 [34; 34] (discord_tag e))%N
     + length (replace 34 [34; 34] (uid e))%N
     + length (replace 34 [34; 34] (timestamp e))%N + 11)%nat.
Proof.
  unfold spec_row, spec_field, quote. cbn [join].
  repeat (rewrite length_app || cbn [length]). lia.
Qed.

Lemma row_spec_quote_free e :
  row e = spec_row e ->
  quote_free (discord_user_id e) /\ quote_free (discord_tag e)
  /\ quote_free (timestamp e).
Proof.
  intros H. apply (f_equal (@length N)) in H.
  rewrite row_length, spec_row_length in H.
  destruct (replace_quote_length (discord_user_id e)) as [A1 A2].
  destruct (replace_quote_length (discord_tag e)) as [B1 B2].
  destruct (replace_quote_length (timestamp e)) as [C1 C2].
  unfold quote_free.
  repeat split; intros F;
    [specialize (A2 F) | specialize (B2 F) | specialize (C2 F)]; lia.
Qed.

(** X14: the row exported for an entry is the row of the specification,
    every field quoted with its double quotes doubled, exactly when its
    discord_user_id, discord_tag and timestamp hold no double quote. *)
Theorem row_as_specified_iff (e : Entry) :
  row e = spec_row e
  <-> quote_free (discord_user_id e) /\ quote_free (discord_tag e)
      /\ quote_free (timestamp e).
Proof.
  split; [apply row_spec_quote_free|].
  intros (H1 & H2 & H3). apply row_as_specified; assumption.
Qed.

Lemma string_of_uint_decimal d :
  forallb decimal_char (lit (NilEmpty.string_of_uint d)) = true.
Proof. induction d; cbn; auto. Qed.

Lemma str_of_int_decimal z : forallb decimal_char (str_of_int z) = true.
Proof.
  unfold str_of_int. destruct (Z.to_int z) as [d|d];
    [apply string_of_uint_decimal|].
  cbn [NilEmpty.string_of_int]. unfold lit. cbn [list_ascii_of_string map forallb].
  apply (string_of_uint_decimal d).
Qed.

Lemma str_of_int_quote_free z : quote_free (str_of_int z).
Proof.
  intros H. pose proof (str_of_int_decimal z) as D.
  eapply forallb_forall in D; [|exact H]. discriminate D.
Qed.

(** X15: for an entry built by [on_submit], the exported row is the row of
    the specification exactly when the user's display string and the
    timestamp hold no double quote: the user id is written in decimal and
    the UID has its double quotes doubled. *)
Theorem new_entry_row_as_specified (i : Interaction) :
  row (new_entry i) = spec_row (new_entry i)
  <-> quote_free (user_str i) /\ quote_free (utcnow_isoformat i).
Proof.
  split.
  - intros H. apply row_spec_quote_free in H as (_ & H2 & H3). auto.
  - intros [H2 H3]. apply row_as_specified; try assumption.
    apply str_of_int_quote_free.
Qed.

(** X16: doubling the double quotes loses nothing: two UIDs that are
    exported as the same field are the same UID. *)
Theorem uid_escaping_injective (a b : str) :
  replace 34 [34; 34] a = replace 34 [34; 34] b -> a = b.
Proof.
  unfold replace. revert b.
  induction a as [|x a IH]; intros [|y b]; cbn [flat_map].
  - reflexivity.
  - destruct (y =? 34); discriminate.
  - destruct (x =? 34); discriminate.
  - destruct (N.eqb_spec x 34) as [->|Hx], (N.eqb_spec y 34) as [->|Hy];
      cbn [app]; intros H; inv H.
    + f_equal. auto.
    + congruence.
    + congruence.
    + f_equal. auto.
Qed.

(** ** First access *)

(** X17: after [load_entries] the file exists; a file that was missing then
    holds the empty sequence; a file that was there is untouched; and a
    second call returns what the first returned and changes nothing. *)
Theorem load_entries_settles (fs : File) :
  exists_ (fst (load_entries fs)) = true
  /\ (exists_ fs = false -> snd (load_entries fs) = Some [])
  /\ (exists_ fs = true -> fst (load_entries fs) = fs)
  /\ load_entries (fst (load_entries fs)) = load_entries fs.
Proof.
  split; [|split; [|split]].
  - destruct fs; reflexivity.
  - destruct fs; [discriminate | reflexivity].
  - destruct fs; [reflexivity | discriminate].
  - apply load_entries_twice.
Qed.

Lemma uid_escaping_injective_witness :
  lit "AB" ++ [34] ++ lit "12" = [65; 66; 34; 49; 50].
Proof.
  apply (uid_escaping_injective (lit "AB" ++ [34] ++ lit "12")
           [65; 66; 34; 49; 50]).
  reflexivity.
Defined.
